(** * mcfly: a shallow embedding of the candidate pipeline

    Embedded sources (all under [src/lib]):
    - [types.ts]                     the records of the data model
    - [registry.ts]                  [JournalRegistry], a [Map<string, Journal>]
    - [keyword-scanner.ts]           [KeywordScanner]
    - [code-file-identifier.ts]      [CodeFileIdentifier]
    - [candidate-identification.ts]  [identifyCandidates]
    - [bundle-downloader.ts]         [downloadBundles]

    Conventions of the model
    - A JavaScript string is a [string]: a sequence of code units.  The
      built-in [String.prototype.toLowerCase] is no code of this
      repository: it is a parameter, [toLowerCase : string -> string], of
      every definition that calls it and of every theorem about these.
      What a theorem needs of the built-in is a hypothesis of that
      theorem; most need nothing.
    - A JavaScript [number] is a rational or one of [NaN], [+Infinity],
      [-Infinity]; every double is one of these.
    - A [Map] is the list of its entries in insertion order; a [Set] that
      is only ever asked [has] is a [gset].
    - A call of an injected collaborator has an effect on the outside
      world and hands back a promise, which settles at some instant,
      fulfilled or rejected.  The call of the download function may also
      throw; [downloadBundles] calls it bare, so a throw ends its loop.
      [identifyCandidates] calls the fetch function inside an async
      arrow, which makes of a throw a promise rejected at once: the fetch
      function is taken as the arrow sees it.  The registry and the
      scanner handed to an orchestrator are not reconfigured while its
      call is in flight. *)

From Stdlib Require Import ZArith QArith Qcanon Ascii String Lia.
From stdpp Require Import base option list strings gmap.

Local Open Scope string_scope.
Local Open Scope list_scope.

(** ** JavaScript strings *)

Module JsString.

(** [s.startsWith(p)] *)
Fixpoint startsWith (s p : string) {struct p} : bool :=
  match p, s with
  | EmptyString, _ => true
  | String _ _, EmptyString => false
  | String a p', String b s' => if Ascii.eqb a b then startsWith s' p' else false
  end.

(** [hay.includes(needle)]: some position of [hay] starts with [needle];
    the end of the string is a position too. *)
Fixpoint includes (hay needle : string) : bool :=
  startsWith hay needle
  || match hay with
     | EmptyString => false
     | String _ hay' => includes hay' needle
     end.

(** [s.lastIndexOf(c)] for a one-unit pattern, [-1] when [c] is absent. *)
Fixpoint lastIndexOf (s : string) (c : ascii) : Z :=
  match s with
  | EmptyString => (-1)%Z
  | String a s' =>
      let r := lastIndexOf s' c in
      if (0 <=? r)%Z then (r + 1)%Z
      else if Ascii.eqb a c then 0%Z else (-1)%Z
  end.

Fixpoint dropUnits (n : nat) (s : string) : string :=
  match n, s with
  | O, _ => s
  | S _, EmptyString => EmptyString
  | S n', String _ s' => dropUnits n' s'
  end.

(** [s.slice(start)]: a negative [start] counts from the end. *)
Definition slice (s : string) (start : Z) : string :=
  let len := Z.of_nat (String.length s) in
  let from := if (start <? 0)%Z then Z.max (len + start) 0 else Z.min start len in
  dropUnits (Z.to_nat from) s.

(** The propositional reading of "is a substring of". *)
Definition substring_of (needle hay : string) : Prop :=
  exists pre post, hay = pre +:+ needle +:+ post.

(** [c] is one of the code units of [s]. *)
Fixpoint hasUnit (c : ascii) (s : string) : Prop :=
  match s with
  | EmptyString => False
  | String a s' => a = c \/ hasUnit c s'
  end.

End JsString.

(** ** [types.ts] *)

Record JournalEndpoint := {
  endpoint_name : string;
  endpoint_url : string
}.

Record Journal := {
  journal_id : string;
  displayName : string;
  endpoints : list JournalEndpoint
}.

Record Article := {
  article_id : string;
  title : string;
  abstract : string;
  fullText : string;
  supplementaryUrl : string
}.

(** ** [keyword-scanner.ts] *)

Module KeywordScanner.

Record t := { keywords : list string }.

Definition new (kws : list string) : t := {| keywords := kws |}.

Definition setKeywords (kws : list string) (_ : t) : t := {| keywords := kws |}.

Section Methods.
(** The built-in [String.prototype.toLowerCase]. *)
Variable toLowerCase : string -> string.

(** The template literal of [isCandidate], lower-cased. *)
Definition haystack (a : Article) : string :=
  toLowerCase (title a +:+ " " +:+ abstract a +:+ " " +:+ fullText a).

Definition isCandidate (this : t) (a : Article) : bool :=
  if (length (keywords this) =? 0)%nat then false
  else existsb (fun kw => JsString.includes (haystack a) (toLowerCase kw))
               (keywords this).

Definition filterCandidates (this : t) (articles : list Article) : list Article :=
  List.filter (fun a => isCandidate this a) articles.

End Methods.

End KeywordScanner.

(** ** JavaScript numbers *)

Inductive number :=
| Finite (q : Q)
| NaN
| PosInfinity
| NegInfinity.

Module JsNumber.

Definition ofZ (z : Z) : number := Finite (inject_Z z).

(** [Number.isInteger(x)] *)
Definition isInteger (x : number) : bool :=
  match x with
  | Finite q => (Z.pos (Qden (Qred q)) =? 1)%Z
  | _ => false
  end.

(** [x < y] *)
Definition lt (x y : number) : bool :=
  match x, y with
  | NaN, _ | _, NaN => false
  | Finite a, Finite b => match (a ?= b)%Q with Lt => true | _ => false end
  | Finite _, PosInfinity => true
  | Finite _, NegInfinity => false
  | PosInfinity, _ => false
  | NegInfinity, NegInfinity => false
  | NegInfinity, _ => true
  end.

(** The value a number denotes when it is a whole number. *)
Definition is_integer_value (x : number) : Prop :=
  exists z : Z, match x with Finite q => (q == inject_Z z)%Q | _ => False end.

End JsNumber.

(** [arr.slice(0, end)]: [end] goes through ToIntegerOrInfinity, a
    negative [end] counts from the back, and the result is clamped to the
    array. *)
Definition Array_slice0 {A : Type} (arr : list A) (end_ : number) : list A :=
  match end_ with
  | NaN => []
  | NegInfinity => []
  | PosInfinity => arr
  | Finite q =>
      let e := Z.quot (Qnum q) (Z.pos (Qden q)) in
      let len := Z.of_nat (length arr) in
      let final := if (e <? 0)%Z then Z.max (len + e) 0 else Z.min e len in
      take (Z.to_nat final) arr
  end.

(** ** [types.ts], second slice *)

Record SupplementaryFile := {
  name : string;
  localPath : string;
  sizeBytes : number
}.

Record SupplementaryBundle := {
  articleId : string;
  articleTitle : string;
  files : list SupplementaryFile;
  tempDir : string
}.

(** ** [Map<string, V>]: the entries in insertion order *)

Module JsMap.

Section Ops.
Context {V : Type}.

(** [m.set(k, v)]: an existing key keeps its place, a new one goes last. *)
Fixpoint set (k : string) (v : V) (m : list (string * V)) : list (string * V) :=
  match m with
  | [] => [(k, v)]
  | (k', v') :: m' =>
      if String.eqb k' k then (k, v) :: m' else (k', v') :: set k v m'
  end.

(** [m.get(k)] *)
Fixpoint get (k : string) (m : list (string * V)) : option V :=
  match m with
  | [] => None
  | (k', v') :: m' => if String.eqb k' k then Some v' else get k m'
  end.

(** [m.delete(k)]: whether the key was there, and the map afterwards. *)
Fixpoint delete (k : string) (m : list (string * V)) : bool * list (string * V) :=
  match m with
  | [] => (false, [])
  | (k', v') :: m' =>
      if String.eqb k' k then (true, m')
      else let '(b, r) := delete k m' in (b, (k', v') :: r)
  end.

(** [m.values()] *)
Definition values (m : list (string * V)) : list V := map snd m.

(** [m.size] *)
Definition size (m : list (string * V)) : nat := length m.

(** [new Map(entries)]: the entries are [set] one after the other. *)
Definition ofEntries (entries : list (string * V)) : list (string * V) :=
  fold_left (fun m e => set (fst e) (snd e) m) entries [].

(** Keys are unique: the invariant every [Map] keeps. *)
Definition wf (m : list (string * V)) : Prop := NoDup (map fst m).

End Ops.

End JsMap.

(** ** [registry.ts] *)

(** The ids of a list of journals with repeats dropped: each id stands
    where it occurs first. *)
Definition firstOccurrences (ids : list string) : list string :=
  rev (nodup string_dec (rev ids)).

(** The journal listed last among those with the given id. *)
Definition lastWithId (id : string) (js : list Journal) : option Journal :=
  List.find (fun j => String.eqb (journal_id j) id) (rev js).

Module JournalRegistry.

Record t := { journals : list (string * Journal) }.

Definition new (initial : list Journal) : t :=
  {| journals := JsMap.ofEntries (map (fun j => (journal_id j, j)) initial) |}.

Definition register (journal : Journal) (this : t) : t :=
  {| journals := JsMap.set (journal_id journal) journal (journals this) |}.

Definition remove (id : string) (this : t) : bool * t :=
  let '(existed, m) := JsMap.delete id (journals this) in
  (existed, {| journals := m |}).

Definition get (id : string) (this : t) : option Journal :=
  JsMap.get id (journals this).

Definition list (this : t) : list Journal := JsMap.values (journals this).

Definition hasAny (this : t) : bool := (0 <? JsMap.size (journals this))%nat.

(** What the methods keep true of the private map: unique ids, and every
    journal stored under its own id. *)
Definition wf (this : t) : Prop :=
  JsMap.wf (journals this) /\
  Forall (fun e => fst e = journal_id (snd e)) (journals this).

End JournalRegistry.

(** Journals of the test suite. *)
Definition nature : Journal :=
  {| journal_id := "nature"; displayName := "Nature";
     endpoints := [ {| endpoint_name := "articles";
                       endpoint_url := "https://api.nature.com/articles" |} ] |}.

Definition science : Journal :=
  {| journal_id := "science"; displayName := "Science"; endpoints := [] |}.

Definition natureUpdated : Journal :=
  {| journal_id := "nature"; displayName := "Nature (updated)"; endpoints := [] |}.

(** ** [code-file-identifier.ts] *)

Definition DEFAULT_CODE_EXTENSIONS : list string :=
  [ ".py"; ".r"; ".rmd"; ".m"; ".jl"; ".js"; ".ts"; ".java"; ".c"; ".cpp";
    ".cs"; ".go"; ".rb"; ".sh"; ".pl"; ".scala"; ".kt"; ".rs"; ".swift";
    ".f90"; ".f95"; ".lua"; ".sql"; ".ipynb" ].

Module CodeFileIdentifier.

Record t := { extensions : gset string }.

Section Methods.
(** The built-in [String.prototype.toLowerCase]. *)
Variable toLowerCase : string -> string.

Definition new (exts : option (list string)) : t :=
  {| extensions :=
       list_to_set (toLowerCase <$> default DEFAULT_CODE_EXTENSIONS exts) |}.

Definition setExtensions (exts : list string) (_ : t) : t :=
  {| extensions := list_to_set (toLowerCase <$> exts) |}.

Definition isCodeFile (this : t) (filename : string) : bool :=
  let lastDot := JsString.lastIndexOf filename "."%char in
  if (lastDot <=? 0)%Z || (lastDot =? Z.of_nat (String.length filename) - 1)%Z
  then false
  else
    let ext := toLowerCase (JsString.slice filename lastDot) in
    bool_decide (ext ∈ extensions this).

Definition identifyCodeFiles (this : t) (bundle : SupplementaryBundle)
  : list SupplementaryFile :=
  List.filter (fun f => isCodeFile this (name f)) (files bundle).

End Methods.

End CodeFileIdentifier.

(** A bundle of the test suite, by its file names. *)
Definition bundleOf (names : list string) : SupplementaryBundle :=
  {| articleId := "art-1"; articleTitle := "A Study of Things";
     files := List.map (fun n => {| name := n; localPath := "/tmp/bundle/" +:+ n;
                                    sizeBytes := JsNumber.ofZ 1024 |}) names;
     tempDir := "/tmp/bundle" |}.

(** What "the file has a recognised extension" says: the name is a
    non-empty stem, a dot, and a non-empty rest without a dot, and the dot
    with the rest is, case apart (the two are the same once lower-cased
    by the built-in), one of the extensions of [E]. *)
Definition recognisedExtension (toLowerCase : string -> string)
    (E : list string) (filename : string) : Prop :=
  exists stem rest : string,
    filename = stem +:+ String "." rest
    /\ ~ JsString.hasUnit "." rest
    /\ stem <> "" /\ rest <> ""
    /\ exists e, e ∈ E
         /\ toLowerCase (String "." rest) = toLowerCase e.

(** [kept] is [all] without the elements that fail [P]: same order, same
    repeats. *)
Inductive keeps {A : Type} (P : A -> Prop) : list A -> list A -> Prop :=
| keeps_nil : keeps P [] []
| keeps_take (x : A) (all kept : list A) :
    P x -> keeps P all kept -> keeps P (x :: all) (x :: kept)
| keeps_skip (x : A) (all kept : list A) :
    ~ P x -> keeps P all kept -> keeps P (x :: all) kept.

(** ** Promises and the outside world *)

Module Async.

Section Promises.
Context {Reason : Type}.

(** How a promise ends. *)
Inductive settled (A : Type) :=
| Fulfilled (value : A)
| Rejected (reason : Reason).

(** A promise, seen from the end of the run: the instant it settles at
    (0: already settled when handed over) and how. *)
Record Promise (A : Type) := mkPromise {
  settledAt : nat;
  outcome : settled A
}.

End Promises.

Arguments settled : clear implicits.
Arguments Promise : clear implicits.
Arguments Fulfilled {Reason A} value.
Arguments Rejected {Reason A} reason.
Arguments mkPromise {Reason A} settledAt outcome.
Arguments settledAt {Reason A} _.
Arguments outcome {Reason A} _.

Section Combinators.
Context {Reason : Type}.

(** [Promise.reject(e)], also what an async function that throws before
    its first [await] hands back. *)
Definition reject {A : Type} (e : Reason) : Promise Reason A :=
  mkPromise 0 (Rejected e).

(** [async x => { const v = await p; return f(v) }], for a pure [f]. *)
Definition andThen {A B : Type} (p : Promise Reason A) (f : A -> B)
  : Promise Reason B :=
  mkPromise (settledAt p)
    match outcome p with
    | Fulfilled v => Fulfilled (f v)
    | Rejected e => Rejected e
    end.

Definition valueOf {A : Type} (p : Promise Reason A) : option A :=
  match outcome p with
  | Fulfilled v => Some v
  | Rejected _ => None
  end.

Definition reasonOf {A : Type} (p : Promise Reason A) : option Reason :=
  match outcome p with
  | Fulfilled _ => None
  | Rejected e => Some e
  end.

(** The rejection [Promise.all] reports: the one that happens first; of
    two at the same instant, the one of the promise listed first. *)
Fixpoint firstRejection {A : Type} (ps : list (Promise Reason A))
  : option (nat * Reason) :=
  match ps with
  | [] => None
  | p :: ps' =>
      match outcome p, firstRejection ps' with
      | Fulfilled _, r => r
      | Rejected e, None => Some (settledAt p, e)
      | Rejected e, Some (t', e') =>
          if (t' <? settledAt p)%nat then Some (t', e') else Some (settledAt p, e)
      end
  end.

(** [Promise.all(ps)]: rejected as soon as one of [ps] is, with its
    reason; otherwise fulfilled, once all are, with the values in the
    order of [ps]. *)
Definition all {A : Type} (ps : list (Promise Reason A))
  : Promise Reason (list A) :=
  match firstRejection ps with
  | Some (t, e) => mkPromise t (Rejected e)
  | None => mkPromise (list_max (map settledAt ps)) (Fulfilled (omap valueOf ps))
  end.

End Combinators.

Section Effects.
Context {World : Type}.

(** A computation with an effect on the outside world. *)
Definition Eff (A : Type) : Type := World -> A * World.

Definition ret {A : Type} (a : A) : Eff A := fun w => (a, w).

Definition bind {A B : Type} (m : Eff A) (k : A -> Eff B) : Eff B :=
  fun w => let '(a, w') := m w in k a w'.

(** [arr.map(f)] for an [f] with effects: index order. *)
Fixpoint mapArray {A B : Type} (f : A -> Eff B) (arr : list A) : Eff (list B) :=
  match arr with
  | [] => ret []
  | x :: arr' =>
      bind (f x) (fun y => bind (mapArray f arr') (fun ys => ret (y :: ys)))
  end.

End Effects.

Arguments Eff : clear implicits.

Section Throwing.
Context {Reason World : Type}.

(** How a plain call ends for its caller: it returns, or it throws. *)
Inductive completion (A : Type) :=
| Returned (a : A)
| Thrown (e : Reason).

Arguments Returned {A} a.
Arguments Thrown {A} e.

(** A computation with an effect on the outside world that may throw. *)
Definition Throws (A : Type) : Type := World -> completion A * World.

(** [arr.map(f)] for an [f] that may throw: index order, and the first
    throw ends the loop. *)
Fixpoint mapArrayOrThrow {A B : Type} (f : A -> Throws B) (arr : list A)
  : Throws (list B) :=
  fun w =>
    match arr with
    | [] => (Returned [], w)
    | x :: arr' =>
        match f x w with
        | (Thrown e, w1) => (Thrown e, w1)
        | (Returned y, w1) =>
            match mapArrayOrThrow f arr' w1 with
            | (Thrown e, w2) => (Thrown e, w2)
            | (Returned ys, w2) => (Returned (y :: ys), w2)
            end
        end
    end.

(** The promise an async function makes of what a call handed to it,
    or of its own body: a throw is a rejection at once. *)
Definition seen {A : Type} (c : completion (Promise Reason A)) : Promise Reason A :=
  match c with
  | Returned p => p
  | Thrown e => reject e
  end.

(** [async () => { const xs = body; return await k(xs) }]: the body may
    throw before the [await]. *)
Definition asyncAwait {A B : Type} (body : Throws A) (k : A -> Promise Reason B)
  : Eff World (Promise Reason B) :=
  fun w =>
    match body w with
    | (Returned xs, w') => (k xs, w')
    | (Thrown e, w') => (reject e, w')
    end.

End Throwing.

Arguments completion : clear implicits.
Arguments Throws : clear implicits.
Arguments Returned {Reason A} a.
Arguments Thrown {Reason A} e.

End Async.

Notation "'let*' x ':=' m 'in' k" := (Async.bind m (fun x => k))
  (at level 10, x name, m at level 100, k at level 200).

(** ** [candidate-identification.ts] and [bundle-downloader.ts] *)

Record JournalCandidateResult := {
  journalId : string;
  candidates : list Article
}.

Definition DEFAULT_MAX_BUNDLES : number := JsNumber.ofZ 10.

Section Orchestrators.
Context {Reason World : Type}.
(** [new Error(message)] *)
Variable Error : string -> Reason.
(** The text a number has inside a template literal. *)
Variable numberToString : number -> string.
(** The built-in [String.prototype.toLowerCase]. *)
Variable toLowerCase : string -> string.

Import Async.

(** The fetch function, as the async arrow of [identifyCandidates] sees
    a call of it. *)
Definition FetchArticlesFn : Type :=
  string -> number -> Eff World (Promise Reason (list Article)).

(** The download function: a call hands back a promise, or throws. *)
Definition DownloadBundleFn : Type :=
  Article -> Throws Reason World (Promise Reason SupplementaryBundle).

Definition identifyCandidates
    (registry : JournalRegistry.t) (scanner : KeywordScanner.t)
    (fetchArticles : FetchArticlesFn) (page : option number)
  : Eff World (Promise Reason (list JournalCandidateResult)) :=
  let page := default (JsNumber.ofZ 1) page in
  if negb (JournalRegistry.hasAny registry) then
    ret (reject (Error
      "JournalRegistry is empty — register at least one journal before scanning."))
  else
    let journals := JournalRegistry.list registry in
    let* results :=
      mapArray (fun journal =>
        let* articles := fetchArticles (journal_id journal) page in
        ret (andThen articles (fun articles =>
          {| journalId := journal_id journal;
             candidates :=
               KeywordScanner.filterCandidates toLowerCase scanner articles |})))
        journals in
    ret (all results).

Definition downloadBundles
    (candidates : list Article) (downloadBundle : DownloadBundleFn)
    (maxBundles : option number)
  : Eff World (Promise Reason (list SupplementaryBundle)) :=
  let maxBundles := default DEFAULT_MAX_BUNDLES maxBundles in
  if negb (JsNumber.isInteger maxBundles) || JsNumber.lt maxBundles (JsNumber.ofZ 1) then
    ret (reject (Error
      ("maxBundles must be a positive integer, got: " +:+ numberToString maxBundles)))
  else
    let batch := Array_slice0 candidates maxBundles in
    asyncAwait (mapArrayOrThrow downloadBundle batch) (fun bundles => all bundles).

End Orchestrators.

(** ** Observing the collaborators

    A spy, as the test suite wraps around its stubs: it behaves as the
    function it wraps and notes every call, with its arguments and the
    promise handed back, in a log kept next to the world.  A call that
    throws is a call all the same: it is noted with the promise rejected
    at once that an async function makes of the throw. *)

Section Spies.
Context {Reason World : Type}.
Import Async.

(** The spy of a function whose calls may throw. *)
Definition spy {Args A : Type} (f : Args -> Throws Reason World (Promise Reason A))
  : Args -> Throws Reason (World * list (Args * Promise Reason A)) (Promise Reason A) :=
  fun args '(w, calls) =>
    let '(c, w') := f args w in (c, (w', calls ++ [(args, seen c)])).

(** The spy of a function seen through an async arrow. *)
Definition spyAsync {Args A : Type} (f : Args -> Eff World (Promise Reason A))
  : Args -> Eff (World * list (Args * Promise Reason A)) (Promise Reason A) :=
  fun args '(w, calls) =>
    let '(p, w') := f args w in (p, (w', calls ++ [(args, p)])).

Definition spyFetch (f : @FetchArticlesFn Reason World)
  : @FetchArticlesFn Reason
      (World * list ((string * number) * Promise Reason (list Article))) :=
  fun journalId page => spyAsync (fun a => f (fst a) (snd a)) (journalId, page).

(** The calls the loop of [downloadBundles] makes over an array, as a
    spy notes them: one per element, in order, up to the first that
    throws. *)
Fixpoint callsOf {Args A : Type} (f : Args -> Throws Reason World (Promise Reason A))
    (arr : list Args) (w : World) : list (Args * Promise Reason A) :=
  match arr with
  | [] => []
  | x :: arr' =>
      match f x w with
      | (Returned p, w1) => (x, p) :: callsOf f arr' w1
      | (Thrown e, w1) => [(x, reject e)]
      end
  end.

(** No call of [f] throws: so it is with an async function. *)
Definition neverThrows {Args A : Type}
    (f : Args -> Throws Reason World (Promise Reason A)) : Prop :=
  forall args w, exists p w', f args w = (Returned p, w').

End Spies.

(** ** Reading a log of calls *)

Section Logs.
Context {Reason : Type}.
Import Async.

(** Fail-fast propagation, read off the log of an orchestrator: once a
    logged call has handed back a promise that rejects, the result rejects
    with the reason, as it is, of the logged call whose rejection comes
    first; so with the reason of that very call when no other logged call
    rejects with another. *)
Definition failsFast {Args A B : Type}
    (calls : list (Args * Promise Reason A)) (result : Promise Reason B) : Prop :=
  forall call e, call ∈ calls -> outcome (snd call) = Rejected e ->
    (exists first e1,
        first ∈ calls /\ outcome (snd first) = Rejected e1
        /\ outcome result = Rejected e1
        /\ forall other e2, other ∈ calls -> outcome (snd other) = Rejected e2 ->
             settledAt (snd first) <= settledAt (snd other))
    /\ ((forall other e2, other ∈ calls -> outcome (snd other) = Rejected e2 -> e2 = e)
        -> outcome result = Rejected e).

(** The record [identifyCandidates] makes for a journal id is the
    candidates among the articles that the logged call for it fetched. *)
Definition recordOfCall (toLowerCase : string -> string) (scanner : KeywordScanner.t)
    (call : (string * number) * Promise Reason (list Article))
    (record : JournalCandidateResult) : Prop :=
  journalId record = fst (fst call)
  /\ exists articles,
       outcome (snd call) = Fulfilled articles
       /\ candidates record
          = KeywordScanner.filterCandidates toLowerCase scanner articles.

(** What the async arrow of [identifyCandidates] hands back for a journal,
    given the promise of its fetch: the promise of the journal's record. *)
Definition recordPromise (toLowerCase : string -> string) (scanner : KeywordScanner.t)
    (j : Journal) (p : Promise Reason (list Article))
  : Promise Reason JournalCandidateResult :=
  andThen p (fun articles =>
    {| journalId := journal_id j;
       candidates := KeywordScanner.filterCandidates toLowerCase scanner articles |}).

End Logs.

(** ** Stubs of the test suite

    The world of the stubs is the number of calls made so far, and
    rejection reasons are messages.  A promise handed out later settles
    earlier, so completion runs against the order of the calls.  The
    lower-casing of the stubs is the built-in cut down to the ASCII
    letters, which is all the texts of the test suite need. *)

Definition asciiLowerUnit (c : ascii) : ascii :=
  let n := nat_of_ascii c in
  if (65 <=? n)%nat && (n <=? 90)%nat then ascii_of_nat (n + 32) else c.

Fixpoint asciiLowerCase (s : string) : string :=
  match s with
  | EmptyString => EmptyString
  | String c s' => String (asciiLowerUnit c) (asciiLowerCase s')
  end.

Definition makeArticle (id title : string) : Article :=
  {| article_id := id; title := title;
     abstract := "This paper examines various things.";
     fullText := "The detailed examination follows.";
     supplementaryUrl := "https://example.com/supp/" +:+ id |}.

Definition makeBundle (a : Article) : SupplementaryBundle :=
  {| articleId := article_id a; articleTitle := title a; files := [];
     tempDir := "/tmp/" +:+ article_id a |}.

Definition echoDownload : @DownloadBundleFn string nat :=
  fun article n =>
    (Async.Returned (Async.mkPromise (100 - n) (Async.Fulfilled (makeBundle article))),
     S n).

Definition flakyDownload : @DownloadBundleFn string nat :=
  fun article n =>
    (Async.Returned
       (Async.mkPromise (100 - n)
          (if String.eqb (article_id article) "bad"
           then Async.Rejected "Network failure"
           else Async.Fulfilled (makeBundle article))),
     S n).

(** A download function that is no async function: on the article "bad"
    it throws in the call itself. *)
Definition throwingDownload : @DownloadBundleFn string nat :=
  fun article n =>
    (if String.eqb (article_id article) "bad"
     then Async.Thrown "Network failure"
     else Async.Returned (Async.mkPromise (100 - n) (Async.Fulfilled (makeBundle article))),
     S n).

Definition stubFetch : @FetchArticlesFn string nat :=
  fun journalId page n =>
    (Async.mkPromise (100 - n)
       (if String.eqb journalId "nature"
        then Async.Fulfilled [ makeArticle "n1" "Source code available on GitHub";
                               makeArticle "n2" "Ice core isotope analysis" ]
        else if String.eqb journalId "science"
        then Async.Fulfilled [ makeArticle "s1" "Survey of marine biodiversity" ]
        else Async.Rejected "Network timeout"),
     S n).

Definition stubError (message : string) : string := message.

Definition scenarioScanner : KeywordScanner.t :=
  KeywordScanner.new ["code"; "github"; "software"].

Definition scenarioRegistry : JournalRegistry.t :=
  JournalRegistry.new [nature; science].

Definition scenarioResults : list JournalCandidateResult :=
  [ {| journalId := "nature";
       candidates := [ makeArticle "n1" "Source code available on GitHub" ] |};
    {| journalId := "science"; candidates := [] |} ].

Definition threeCandidates : list Article :=
  [ makeArticle "a1" "First"; makeArticle "bad" "Second"; makeArticle "a3" "Third" ].

(** A stand-in for the text of a number: finite values are not spelled
    out. *)
Definition stubNumberToString (x : number) : string :=
  match x with
  | Finite q => "<number>"
  | NaN => "NaN"
  | PosInfinity => "Infinity"
  | NegInfinity => "-Infinity"
  end.

(** ** Histories of a registry *)

(** One call of a method that changes the registry. *)
Inductive RegistryOp :=
| OpRegister (journal : Journal)
| OpRemove (id : string).

Definition applyOp (this : JournalRegistry.t) (op : RegistryOp) : JournalRegistry.t :=
  match op with
  | OpRegister journal => JournalRegistry.register journal this
  | OpRemove id => snd (JournalRegistry.remove id this)
  end.

(** The registry after [new JournalRegistry(initial)] and the calls of
    [ops], in their order. *)
Definition runOps (initial : list Journal) (ops : list RegistryOp) : JournalRegistry.t :=
  fold_left applyOp ops (JournalRegistry.new initial).

(** * Properties *)

(** ** Strings *)

Section StringFacts.
Import JsString.

Lemma startsWith_spec (s p : string) :
  startsWith s p = true <-> exists post, s = p +:+ post.
Proof.
  revert s. induction p as [|a p IH]; intros s; simpl.
  - split; [intros _; by exists s | done].
  - destruct s as [|b s].
    + split; [done | intros [post H]; discriminate H].
    + destruct (Ascii.eqb_spec a b) as [->|Hne].
      * rewrite IH. split; intros [post H]; exists post.
        -- by rewrite H.
        -- by injection H.
      * split; [done | intros [post H]]. injection H as Hab _. by destruct Hne.
Qed.

Lemma includes_spec (hay needle : string) :
  includes hay needle = true <-> substring_of needle hay.
Proof.
  unfold substring_of. induction hay as [|c hay IH]; simpl.
  - rewrite orb_false_r, startsWith_spec. split.
    + intros [post H]. by exists "", post.
    + intros [pre [post H]]. destruct pre; [by exists post | discriminate H].
  - rewrite orb_true_iff, startsWith_spec, IH. split.
    + intros [[post H] | [pre [post H]]].
      * by exists "", post.
      * exists (String c pre), post. simpl. by rewrite H.
    + intros [pre [post H]]. destruct pre as [|c' pre].
      * left. by exists post.
      * right. injection H as _ H. by exists pre, post.
Qed.

Lemma includes_empty (hay : string) : includes hay "" = true.
Proof. by destruct hay. Qed.

End StringFacts.

(** ** KeywordScanner *)

(** C1.  Whatever the built-in lower-casing does and whatever keyword
    list a scanner holds, [isCandidate] answers true exactly when the
    lower-cased text "title abstract fullText" has the lower-casing of one
    of the keywords as a substring; and a scanner whose list is empty, by
    construction or after [setKeywords], answers false for every
    article. *)
Theorem isCandidate_iff_some_keyword_substring (toLowerCase : string -> string) :
  (forall (this : KeywordScanner.t) (a : Article),
     KeywordScanner.isCandidate toLowerCase this a = true <->
     exists kw, kw ∈ KeywordScanner.keywords this /\
       JsString.substring_of (toLowerCase kw)
         (toLowerCase (title a +:+ " " +:+ abstract a +:+ " " +:+ fullText a)))
  /\ (forall (a : Article),
        KeywordScanner.isCandidate toLowerCase (KeywordScanner.new []) a = false)
  /\ (forall (this : KeywordScanner.t) (a : Article),
        KeywordScanner.isCandidate toLowerCase (KeywordScanner.setKeywords [] this) a = false).
Proof.
  split; [|done].
  intros [K] a. unfold KeywordScanner.isCandidate, KeywordScanner.haystack. simpl.
  destruct K as [|k K]; simpl length; cbv iota beta.
  - simpl. split; [done | intros [kw [Hin _]]; by apply elem_of_nil in Hin].
  - change (S (length K) =? 0)%nat with false. cbv iota.
    rewrite existsb_exists. split.
    + intros [kw [Hin Hinc]]. exists kw. split.
      * by apply list_elem_of_In.
      * by apply includes_spec.
    + intros [kw [Hin Hsub]]. exists kw. split.
      * by apply list_elem_of_In.
      * by apply includes_spec.
Qed.

(** C10.  A scanner whose keyword list has the empty string among its
    elements takes every article for a candidate, the article with three
    empty text fields included.  Of the built-in this takes no more than
    that the lower-casing of the empty string is empty. *)
Theorem isCandidate_empty_keyword_matches_all
    (toLowerCase : string -> string) (this : KeywordScanner.t) (a : Article) :
  toLowerCase "" = "" ->
  "" ∈ KeywordScanner.keywords this ->
  KeywordScanner.isCandidate toLowerCase this a = true.
Proof.
  intros Hempty Hin. unfold KeywordScanner.isCandidate.
  destruct (KeywordScanner.keywords this) as [|k K] eqn:E.
  - by apply elem_of_nil in Hin.
  - change (length (k :: K) =? 0)%nat with false. cbv iota.
    apply existsb_exists. exists "". split.
    + by apply list_elem_of_In.
    + rewrite Hempty. apply includes_empty.
Qed.

Lemma isCandidate_empty_keyword_matches_all_witness :
  KeywordScanner.isCandidate asciiLowerCase (KeywordScanner.new ["code"; ""])
    {| article_id := "art-1"; title := ""; abstract := ""; fullText := "";
       supplementaryUrl := "https://example.com/supp/art-1" |} = true.
Proof.
  apply isCandidate_empty_keyword_matches_all.
  - reflexivity.
  - simpl. apply list_elem_of_In. simpl. auto.
Defined.

Example isCandidate_substring_and_case :
  let scanner := KeywordScanner.new ["code"; "github"; "software"; "script"; "repository"] in
  let article := fun t => {| article_id := "art-1"; title := t;
                             abstract := "This paper examines various things.";
                             fullText := "The detailed examination follows.";
                             supplementaryUrl := "" |} in
  KeywordScanner.isCandidate asciiLowerCase scanner (article "The codebase was refactored") = true
  /\ KeywordScanner.isCandidate asciiLowerCase scanner (article "Analysis CODE Available") = true
  /\ KeywordScanner.isCandidate asciiLowerCase scanner
       (article "A Meta-Analysis of Ice Core Data") = false
  /\ KeywordScanner.isCandidate asciiLowerCase (KeywordScanner.new ["CODE"])
       (article "source code is available") = true
  /\ KeywordScanner.isCandidate asciiLowerCase scanner
       {| article_id := "art-1"; title := ""; abstract := ""; fullText := "";
          supplementaryUrl := "" |} = false.
Proof. repeat split; reflexivity. Qed.

(** ** Map and JournalRegistry *)

Section MapFacts.
Context {V : Type}.
Implicit Types (m : list (string * V)) (k : string) (v : V).

Lemma JsMap_get_set_eq m k v : JsMap.get k (JsMap.set k v m) = Some v.
Proof.
  induction m as [|[k' v'] m IH]; simpl.
  - by rewrite String.eqb_refl.
  - destruct (String.eqb k' k) eqn:E; simpl.
    + by rewrite String.eqb_refl.
    + by rewrite E.
Qed.

Lemma JsMap_get_None m k : JsMap.get k m = None <-> ~ In k (map fst m).
Proof.
  induction m as [|[k' v'] m IH]; simpl.
  - tauto.
  - destruct (String.eqb_spec k' k) as [->|Hne].
    + split; [done | tauto].
    + rewrite IH. tauto.
Qed.

Lemma JsMap_keys_set m k v :
  map fst (JsMap.set k v m) =
  match JsMap.get k m with
  | Some _ => map fst m
  | None => map fst m ++ [k]
  end.
Proof.
  induction m as [|[k' v'] m IH]; simpl; [done|].
  destruct (String.eqb_spec k' k) as [->|Hne]; simpl; [done|].
  rewrite IH. by destruct (JsMap.get k m).
Qed.

Lemma JsMap_set_existing m k v old :
  JsMap.get k m = Some old ->
  exists i, m !! i = Some (k, old) /\ JsMap.set k v m = <[i:=(k, v)]> m.
Proof.
  induction m as [|[k' v'] m IH]; simpl; [done|].
  destruct (String.eqb_spec k' k) as [->|Hne].
  - intros [= ->]. by exists 0%nat.
  - intros H. destruct (IH H) as [i [Hi Hs]]. exists (S i). simpl. by rewrite Hs.
Qed.

Lemma JsMap_delete_keys m k :
  forall k', In k' (map fst (snd (JsMap.delete k m))) -> In k' (map fst m).
Proof.
  induction m as [|[k0 v0] m IH]; simpl; [done|].
  intros k'. destruct (String.eqb k0 k); simpl; [tauto|].
  destruct (JsMap.delete k m) as [b r]. simpl in *. intros [->|H]; [tauto|].
  right. by apply IH.
Qed.

Lemma JsMap_delete_wf m k : JsMap.wf m -> JsMap.wf (snd (JsMap.delete k m)).
Proof.
  unfold JsMap.wf. induction m as [|[k0 v0] m IH]; simpl; [done|].
  intros Hnd. apply NoDup_cons in Hnd as [Hnotin Hnd].
  destruct (String.eqb k0 k); simpl; [done|].
  pose proof (JsMap_delete_keys m k) as Hsub.
  destruct (JsMap.delete k m) as [b r]. simpl in *. apply NoDup_cons. split.
  - rewrite list_elem_of_In. intros Hin. apply Hnotin, list_elem_of_In. by apply Hsub.
  - by apply IH.
Qed.

Lemma JsMap_get_delete m k :
  JsMap.wf m -> JsMap.get k (snd (JsMap.delete k m)) = None.
Proof.
  unfold JsMap.wf. induction m as [|[k0 v0] m IH]; simpl; [done|].
  intros Hnd. apply NoDup_cons in Hnd as [Hnotin Hnd].
  destruct (String.eqb_spec k0 k) as [->|Hne]; simpl.
  - apply JsMap_get_None. by rewrite <- list_elem_of_In.
  - specialize (IH Hnd). destruct (JsMap.delete k m) as [b r]. simpl in *.
    by destruct (String.eqb_spec k0 k).
Qed.

Lemma JsMap_delete_absent m k :
  JsMap.get k m = None -> JsMap.delete k m = (false, m).
Proof.
  induction m as [|[k0 v0] m IH]; simpl; [done|].
  destruct (String.eqb k0 k); [done|]. intros H. by rewrite (IH H).
Qed.

Lemma JsMap_delete_present m k old :
  JsMap.get k m = Some old -> fst (JsMap.delete k m) = true.
Proof.
  induction m as [|[k0 v0] m IH]; simpl; [done|].
  destruct (String.eqb k0 k); [done|]. intros H. specialize (IH H).
  by destruct (JsMap.delete k m).
Qed.

Lemma JsMap_set_wf m k v : JsMap.wf m -> JsMap.wf (JsMap.set k v m).
Proof.
  unfold JsMap.wf. intros Hnd. rewrite JsMap_keys_set.
  destruct (JsMap.get k m) eqn:E; [done|].
  apply NoDup_app. split; [done|]. split; [|apply NoDup_singleton].
  intros x Hx Hk. apply list_elem_of_singleton in Hk as ->.
  apply JsMap_get_None in E. apply E. by apply list_elem_of_In.
Qed.

Lemma JsMap_ofEntries_snoc (es : list (string * V)) (e : string * V) :
  JsMap.ofEntries (es ++ [e]) = JsMap.set (fst e) (snd e) (JsMap.ofEntries es).
Proof. unfold JsMap.ofEntries. by rewrite fold_left_app. Qed.

Lemma JsMap_ofEntries_wf (es : list (string * V)) : JsMap.wf (JsMap.ofEntries es).
Proof.
  induction es as [|e es IH] using rev_ind.
  - apply NoDup_nil_2.
  - rewrite JsMap_ofEntries_snoc. by apply JsMap_set_wf.
Qed.

End MapFacts.

Section RegistryFacts.

Lemma JsMap_get_set {V : Type} (m : list (string * V)) (k k' : string) (v : V) :
  JsMap.get k (JsMap.set k' v m) = if String.eqb k' k then Some v else JsMap.get k m.
Proof.
  induction m as [|[k0 v0] m IH]; simpl; [done|].
  destruct (String.eqb_spec k0 k') as [->|Hne]; simpl.
  - by destruct (String.eqb k' k).
  - rewrite IH. destruct (String.eqb_spec k0 k) as [->|Hne2]; [|done].
    by destruct (String.eqb_spec k' k) as [->|Hne3].
Qed.

Lemma map_list_insert {A B : Type} (f : A -> B) (l : list A) (i : nat) (x : A) :
  map f (<[i:=x]> l) = <[i:=f x]> (map f l).
Proof.
  revert i. induction l as [|y l IH]; intros [|i]; simpl; try done.
  by rewrite IH.
Qed.

Lemma map_list_lookup {A B : Type} (f : A -> B) (l : list A) (i : nat) (x : A) :
  l !! i = Some x -> map f l !! i = Some (f x).
Proof.
  revert i. induction l as [|y l IH]; intros [|i]; simpl; try done.
  - by intros [= ->].
  - apply IH.
Qed.

Lemma firstOccurrences_snoc (ids : list string) (k : string) :
  firstOccurrences (ids ++ [k]) =
  if in_dec string_dec k ids then firstOccurrences ids else firstOccurrences ids ++ [k].
Proof.
  unfold firstOccurrences. rewrite rev_app_distr. simpl.
  destruct (in_dec string_dec k (rev ids)) as [Hin|Hout];
    destruct (in_dec string_dec k ids) as [Hin'|Hout']; try done.
  - destruct Hout'. by apply in_rev.
  - destruct Hout. by apply in_rev in Hin'.
Qed.

Lemma JournalRegistry_new_snoc (initial : list Journal) (j : Journal) :
  JournalRegistry.new (initial ++ [j]) =
  JournalRegistry.register j (JournalRegistry.new initial).
Proof.
  unfold JournalRegistry.new, JournalRegistry.register. simpl.
  rewrite map_app. simpl. by rewrite JsMap_ofEntries_snoc.
Qed.

Lemma JournalRegistry_register_wf (r : JournalRegistry.t) (j : Journal) :
  JournalRegistry.wf r -> JournalRegistry.wf (JournalRegistry.register j r).
Proof.
  intros [Hnd Hid]. split; simpl.
  - by apply JsMap_set_wf.
  - clear Hnd. induction Hid as [|[k v] m Hkv Hm IH]; simpl.
    + by repeat constructor.
    + destruct (String.eqb k (journal_id j)); constructor; done.
Qed.

Lemma JournalRegistry_remove_wf (r : JournalRegistry.t) (id : string) :
  JournalRegistry.wf r -> JournalRegistry.wf (snd (JournalRegistry.remove id r)).
Proof.
  intros [Hnd Hid]. unfold JournalRegistry.remove.
  pose proof (JsMap_delete_wf (JournalRegistry.journals r) id Hnd) as Hnd'.
  assert (Hid' : Forall (fun e => fst e = journal_id (snd e))
                        (snd (JsMap.delete id (JournalRegistry.journals r)))).
  { clear Hnd Hnd'. induction Hid as [|[k v] m Hkv Hm IH]; simpl; [done|].
    destruct (String.eqb k id); simpl; [done|].
    destruct (JsMap.delete id m) as [b m']. simpl in *. by constructor. }
  destruct (JsMap.delete id (JournalRegistry.journals r)) as [b m']. by split.
Qed.

Lemma JournalRegistry_new_wf (initial : list Journal) :
  JournalRegistry.wf (JournalRegistry.new initial).
Proof.
  induction initial as [|j initial IH] using rev_ind.
  - split; simpl; [apply NoDup_nil_2 | done].
  - rewrite JournalRegistry_new_snoc. by apply JournalRegistry_register_wf.
Qed.

Lemma JsMap_set_fresh {V : Type} (m : list (string * V)) (k : string) (v : V) :
  ~ In k (map fst m) -> JsMap.set k v m = m ++ [(k, v)].
Proof.
  induction m as [|[k0 v0] m IH]; simpl; [done|].
  intros Hout. destruct (String.eqb_spec k0 k) as [->|Hne]; [tauto|].
  rewrite IH; [done | tauto].
Qed.

(** Every well-formed state is one the constructor builds. *)
Lemma JournalRegistry_wf_reachable (r : JournalRegistry.t) :
  JournalRegistry.wf r -> JournalRegistry.new (JournalRegistry.list r) = r.
Proof.
  destruct r as [m]. intros [Hnd Hid]. unfold JournalRegistry.new, JournalRegistry.list.
  simpl in *. f_equal. unfold JsMap.wf, JsMap.values in *.
  induction m as [|[k v] m IH] using rev_ind; [done|].
  rewrite !map_app in *. simpl in *. rewrite JsMap_ofEntries_snoc. simpl.
  apply Forall_app in Hid as [Hid Hkv]. rewrite Forall_singleton in Hkv. simpl in Hkv.
  apply NoDup_app in Hnd as [Hnd [Hout _]].
  rewrite IH by done. subst k. apply JsMap_set_fresh.
  intros Hin. apply (Hout (journal_id v)); [by apply list_elem_of_In | by left].
Qed.

Lemma JournalRegistry_list_ids (r : JournalRegistry.t) :
  JournalRegistry.wf r ->
  map journal_id (JournalRegistry.list r) = map fst (JournalRegistry.journals r).
Proof.
  intros [_ Hid]. unfold JournalRegistry.list, JsMap.values.
  induction Hid as [|[k v] m Hkv Hm IH]; simpl; [done|].
  simpl in Hkv. by rewrite IH, Hkv.
Qed.

Lemma JournalRegistry_new_keys (initial : list Journal) :
  map fst (JournalRegistry.journals (JournalRegistry.new initial)) =
  firstOccurrences (map journal_id initial).
Proof.
  induction initial as [|j initial IH] using rev_ind; [done|].
  rewrite JournalRegistry_new_snoc. unfold JournalRegistry.register.
  cbn [JournalRegistry.journals]. rewrite JsMap_keys_set, map_app. cbn [map].
  rewrite firstOccurrences_snoc, IH.
  set (m := JournalRegistry.journals (JournalRegistry.new initial)) in *.
  destruct (JsMap.get (journal_id j) m) eqn:E.
  - destruct (in_dec _ _ _) as [Hin|Hout]; [done|]. destruct Hout.
    assert (Hk : In (journal_id j) (map fst m)).
    { destruct (in_dec string_dec (journal_id j) (map fst m)) as [H|H]; [done|].
      apply JsMap_get_None in H. congruence. }
    rewrite IH in Hk. unfold firstOccurrences in Hk.
    apply in_rev in Hk. apply nodup_In in Hk. by apply in_rev in Hk.
  - destruct (in_dec _ _ _) as [Hin|Hout]; [|done].
    apply JsMap_get_None in E. destruct E. rewrite IH. unfold firstOccurrences.
    apply in_rev. rewrite rev_involutive. apply nodup_In. by apply in_rev in Hin.
Qed.

Lemma JournalRegistry_new_get (initial : list Journal) (id : string) :
  JournalRegistry.get id (JournalRegistry.new initial) = lastWithId id initial.
Proof.
  unfold lastWithId. induction initial as [|j initial IH] using rev_ind; [done|].
  rewrite JournalRegistry_new_snoc, rev_app_distr.
  unfold JournalRegistry.get, JournalRegistry.register in *.
  cbn [JournalRegistry.journals rev app List.find].
  rewrite JsMap_get_set, IH. by destruct (String.eqb (journal_id j) id).
Qed.

End RegistryFacts.

(** C7.  In a registry whose map has unique ids, [get (J.id)] right after
    [register J] gives [J]; right after [remove (J.id)], [get (J.id)] gives
    nothing and a second [remove (J.id)] answers false.  The same holds
    when the removal comes right after the registration, and that first
    removal answers true. *)
Theorem register_get_remove_absent (r : JournalRegistry.t) (J : Journal) :
  JournalRegistry.wf r ->
  JournalRegistry.get (journal_id J) (JournalRegistry.register J r) = Some J
  /\ (let r1 := snd (JournalRegistry.remove (journal_id J) r) in
      JournalRegistry.get (journal_id J) r1 = None
      /\ fst (JournalRegistry.remove (journal_id J) r1) = false)
  /\ (let removal := JournalRegistry.remove (journal_id J) (JournalRegistry.register J r) in
      fst removal = true
      /\ JournalRegistry.get (journal_id J) (snd removal) = None
      /\ fst (JournalRegistry.remove (journal_id J) (snd removal)) = false).
Proof.
  assert (Hrm : forall r0, JournalRegistry.wf r0 ->
    let r1 := snd (JournalRegistry.remove (journal_id J) r0) in
    JournalRegistry.get (journal_id J) r1 = None
    /\ fst (JournalRegistry.remove (journal_id J) r1) = false).
  { intros r0 [Hnd _]. unfold JournalRegistry.remove, JournalRegistry.get.
    pose proof (JsMap_get_delete (JournalRegistry.journals r0) (journal_id J) Hnd) as Hg.
    destruct (JsMap.delete (journal_id J) (JournalRegistry.journals r0)) as [b m].
    simpl in *. split; [done|]. by rewrite (JsMap_delete_absent _ _ Hg). }
  intros Hwf.
  assert (Hget : JournalRegistry.get (journal_id J) (JournalRegistry.register J r) = Some J)
    by apply JsMap_get_set_eq.
  split; [done|]. split; [by apply Hrm|].
  split; [|by apply Hrm, JournalRegistry_register_wf].
  unfold JournalRegistry.remove.
  pose proof (JsMap_delete_present _ _ _ Hget) as Hb.
  by destruct (JsMap.delete _ _).
Qed.

Lemma register_get_remove_absent_witness :
  JournalRegistry.get "nature"
    (JournalRegistry.register natureUpdated (JournalRegistry.new [nature; science]))
  = Some natureUpdated.
Proof.
  apply (register_get_remove_absent (JournalRegistry.new [nature; science]) natureUpdated).
  split.
  - apply (bool_decide_unpack _). by vm_compute.
  - apply (bool_decide_unpack _). by vm_compute.
Defined.

(** C8.  [register J] on a registry that already holds [J.id] leaves the
    length of [list ()] and the order of its ids as they were: the one
    entry with that id, at its old index, now holds [J].  A registry built
    from an initial list is the empty registry after one [register] per
    element, so its ids stand in the order of their first occurrence and
    each id holds the journal given last for it. *)
Theorem register_existing_in_place
    (r : JournalRegistry.t) (J : Journal) (initial : list Journal) :
  JournalRegistry.wf r ->
  is_Some (JournalRegistry.get (journal_id J) r) ->
  length (JournalRegistry.list (JournalRegistry.register J r))
    = length (JournalRegistry.list r)
  /\ map journal_id (JournalRegistry.list (JournalRegistry.register J r))
     = map journal_id (JournalRegistry.list r)
  /\ (exists (i : nat) (old : Journal),
        JournalRegistry.list r !! i = Some old
        /\ journal_id old = journal_id J
        /\ JournalRegistry.list (JournalRegistry.register J r)
           = <[i:=J]> (JournalRegistry.list r))
  /\ JournalRegistry.new initial
     = fold_left (fun reg j => JournalRegistry.register j reg) initial
                 (JournalRegistry.new [])
  /\ map journal_id (JournalRegistry.list (JournalRegistry.new initial))
     = firstOccurrences (map journal_id initial)
  /\ (forall id, JournalRegistry.get id (JournalRegistry.new initial)
                 = lastWithId id initial).
Proof.
  intros Hwf [old Hold].
  assert (Hpos : exists (i : nat) (old : Journal),
        JournalRegistry.list r !! i = Some old
        /\ journal_id old = journal_id J
        /\ JournalRegistry.list (JournalRegistry.register J r)
           = <[i:=J]> (JournalRegistry.list r)).
  { destruct (JsMap_set_existing _ _ J _ Hold) as [i [Hi Hset]].
    exists i, old. unfold JournalRegistry.list, JournalRegistry.register, JsMap.values.
    cbn [JournalRegistry.journals]. rewrite Hset. split; [|split].
    - by apply (map_list_lookup snd) in Hi.
    - destruct Hwf as [_ Hid]. rewrite Forall_forall in Hid.
      symmetry. apply (Hid (journal_id J, old)).
      by eapply list_elem_of_lookup_2.
    - apply map_list_insert. }
  destruct Hpos as [i [old' [Hi [Hid Hl]]]].
  split; [by rewrite Hl, length_insert|].
  split.
  { rewrite Hl, map_list_insert, <- Hid. apply list_insert_id.
    by apply map_list_lookup. }
  split; [by exists i, old'|].
  split.
  { induction initial as [|j initial IH] using rev_ind; [done|].
    by rewrite JournalRegistry_new_snoc, fold_left_app, IH. }
  split.
  - rewrite JournalRegistry_list_ids by apply JournalRegistry_new_wf.
    apply JournalRegistry_new_keys.
  - intros id. apply JournalRegistry_new_get.
Qed.

Lemma register_existing_in_place_witness :
  length (JournalRegistry.list
            (JournalRegistry.register natureUpdated (JournalRegistry.new [nature; science])))
  = length (JournalRegistry.list (JournalRegistry.new [nature; science])).
Proof.
  apply (register_existing_in_place (JournalRegistry.new [nature; science])
           natureUpdated [nature; natureUpdated; science]).
  - split; apply (bool_decide_unpack _); by vm_compute.
  - vm_compute. eauto.
Defined.

Example register_existing_keeps_first_place :
  JournalRegistry.list
    (JournalRegistry.register natureUpdated (JournalRegistry.new [nature; science]))
  = [natureUpdated; science]
  /\ JournalRegistry.list (JournalRegistry.new [nature; science; natureUpdated])
     = [natureUpdated; science].
Proof. split; reflexivity. Qed.

(** ** CodeFileIdentifier *)

Section ExtensionFacts.
Import JsString.

Lemma lastIndexOf_cases (s : string) (c : ascii) :
  (lastIndexOf s c = (-1)%Z /\ ~ hasUnit c s)
  \/ (exists stem rest, s = stem +:+ String c rest /\ ~ hasUnit c rest
        /\ lastIndexOf s c = Z.of_nat (String.length stem)).
Proof.
  induction s as [|a s IH]; simpl.
  - left. tauto.
  - destruct IH as [[Hr Hno] | [stem [rest [Hs [Hno Hr]]]]]; rewrite Hr.
    + change (0 <=? -1)%Z with false. cbv iota.
      destruct (Ascii.eqb_spec a c) as [->|Hne].
      * right. exists "", s. by repeat split.
      * left. split; [done | tauto].
    + right. exists (String a stem), rest. rewrite Hs. repeat split; [done|].
      destruct (Z.leb_spec 0 (Z.of_nat (String.length stem))); simpl String.length; lia.
Qed.

Lemma hasUnit_app (c : ascii) (stem rest : string) :
  hasUnit c (stem +:+ String c rest).
Proof. induction stem; simpl; tauto. Qed.

Lemma split_last_unique (c : ascii) (stem stem' rest rest' : string) :
  stem +:+ String c rest = stem' +:+ String c rest' ->
  ~ hasUnit c rest -> ~ hasUnit c rest' ->
  stem = stem' /\ rest = rest'.
Proof.
  revert stem'. induction stem as [|a stem IH]; intros [|a' stem']; simpl.
  - by intros [= ->].
  - intros [= <- ->] Hno _. destruct Hno. apply hasUnit_app.
  - intros [= -> <-] _ Hno. destruct Hno. apply hasUnit_app.
  - intros [= -> H] Hno Hno'. destruct (IH _ H Hno Hno') as [-> ->]. done.
Qed.

Lemma length_app (s t : string) :
  String.length (s +:+ t) = (String.length s + String.length t)%nat.
Proof. induction s as [|a s IH]; simpl; [done | by rewrite IH]. Qed.

Lemma dropUnits_app (stem t : string) :
  dropUnits (String.length stem) (stem +:+ t) = t.
Proof. induction stem as [|a stem IH]; [done | exact IH]. Qed.

Lemma slice_app (stem t : string) :
  slice (stem +:+ t) (Z.of_nat (String.length stem)) = t.
Proof.
  unfold slice. rewrite length_app.
  destruct (Z.ltb_spec (Z.of_nat (String.length stem)) 0); [lia|].
  rewrite Z.min_l by lia. rewrite Nat2Z.id. apply dropUnits_app.
Qed.

End ExtensionFacts.

Section IsCodeFileFacts.
Context {toLowerCase : string -> string}.
Import JsString.

Lemma isCodeFile_split (this : CodeFileIdentifier.t) (stem rest : string) :
  ~ hasUnit "." rest ->
  CodeFileIdentifier.isCodeFile toLowerCase this (stem +:+ String "." rest) =
  match stem, rest with
  | EmptyString, _ | _, EmptyString => false
  | _, _ => bool_decide (toLowerCase (String "." rest) ∈ CodeFileIdentifier.extensions this)
  end.
Proof.
  intros Hno. unfold CodeFileIdentifier.isCodeFile.
  destruct (lastIndexOf_cases (stem +:+ String "." rest) ".")
    as [[_ Habs] | [stem' [rest' [Hs [Hno' Hr]]]]].
  { destruct Habs. apply hasUnit_app. }
  destruct (split_last_unique _ _ _ _ _ Hs Hno Hno') as [<- <-].
  rewrite Hr, slice_app, length_app. simpl String.length.
  destruct stem as [|a stem]; [done|]. destruct rest as [|b rest].
  - simpl String.length.
    replace (_ =? _)%Z with true; [by rewrite orb_true_r|].
    symmetry. apply Z.eqb_eq. lia.
  - simpl String.length.
    replace (_ <=? 0)%Z with false by (symmetry; apply Z.leb_gt; lia).
    replace (_ =? _)%Z with false by (symmetry; apply Z.eqb_neq; lia).
    done.
Qed.

Lemma isCodeFile_recognised (this : CodeFileIdentifier.t) (E : list string)
    (filename : string) :
  CodeFileIdentifier.extensions this = list_to_set (toLowerCase <$> E) ->
  CodeFileIdentifier.isCodeFile toLowerCase this filename = true
  <-> recognisedExtension toLowerCase E filename.
Proof.
  intros HE. unfold recognisedExtension. split.
  - intros Hc.
    destruct (lastIndexOf_cases filename ".")
      as [[Hr _] | [stem [rest [Hs [Hno _]]]]].
    { unfold CodeFileIdentifier.isCodeFile in Hc. by rewrite Hr in Hc. }
    exists stem, rest. rewrite Hs, (isCodeFile_split _ _ _ Hno) in Hc.
    destruct stem as [|a stem]; [done|]. destruct rest as [|b rest]; [done|].
    apply bool_decide_eq_true in Hc. rewrite HE, elem_of_list_to_set in Hc.
    apply list_elem_of_fmap in Hc as [e [He Hin]].
    repeat split; try done. by exists e.
  - intros [stem [rest [-> [Hno [Hstem [Hrest [e [Hin He]]]]]]]].
    rewrite (isCodeFile_split _ _ _ Hno).
    destruct stem as [|a stem]; [done|]. destruct rest as [|b rest]; [done|].
    apply bool_decide_eq_true. rewrite HE, elem_of_list_to_set.
    apply list_elem_of_fmap. by exists e.
Qed.

End IsCodeFileFacts.

Lemma identifyCodeFiles_keeps {toLowerCase : string -> string}
    (this : CodeFileIdentifier.t) (E : list string) (B : SupplementaryBundle) :
  CodeFileIdentifier.extensions this = list_to_set (toLowerCase <$> E) ->
  keeps (fun f => recognisedExtension toLowerCase E (name f)) (files B)
        (CodeFileIdentifier.identifyCodeFiles toLowerCase this B).
Proof.
  intros HE. unfold CodeFileIdentifier.identifyCodeFiles.
  induction (files B) as [|f fs IH]; simpl.
  - constructor.
  - destruct (CodeFileIdentifier.isCodeFile toLowerCase this (name f)) eqn:Hf.
    + apply keeps_take; [|done]. by apply (isCodeFile_recognised this E).
    + apply keeps_skip; [|done]. rewrite <- (isCodeFile_recognised this E) by done.
      by rewrite Hf.
Qed.

(** C4.  Whatever the built-in lower-casing does: for an identifier
    configured with the extensions [E] (at construction, through
    [setExtensions], or with the default list), [identifyCodeFiles B] is
    [B.files] without the files that fail the test "the name is stem +
    extension, and the extension, from the last dot to the end, is in [E]
    case apart", that is, once both are lower-cased by the built-in:
    order and repeats are kept.  Whatever the configuration, a name
    without a dot, with its only dot in front, or ending in a dot is no
    code file and is not in the result. *)
Theorem identifyCodeFiles_exactly_recognised
    (toLowerCase : string -> string) (E : list string) (B : SupplementaryBundle) :
  keeps (fun f => recognisedExtension toLowerCase E (name f)) (files B)
        (CodeFileIdentifier.identifyCodeFiles toLowerCase
           (CodeFileIdentifier.new toLowerCase (Some E)) B)
  /\ (forall old : CodeFileIdentifier.t,
        keeps (fun f => recognisedExtension toLowerCase E (name f)) (files B)
          (CodeFileIdentifier.identifyCodeFiles toLowerCase
             (CodeFileIdentifier.setExtensions toLowerCase E old) B))
  /\ keeps (fun f => recognisedExtension toLowerCase DEFAULT_CODE_EXTENSIONS (name f))
        (files B)
        (CodeFileIdentifier.identifyCodeFiles toLowerCase
           (CodeFileIdentifier.new toLowerCase None) B)
  /\ (forall (this : CodeFileIdentifier.t) (f : SupplementaryFile),
        ~ JsString.hasUnit "." (name f)
        \/ (exists rest, name f = String "." rest /\ ~ JsString.hasUnit "." rest)
        \/ (exists stem, name f = stem +:+ ".") ->
        CodeFileIdentifier.isCodeFile toLowerCase this (name f) = false
        /\ f ∉ CodeFileIdentifier.identifyCodeFiles toLowerCase this B).
Proof.
  split; [by apply identifyCodeFiles_keeps|].
  split; [intros old; by apply identifyCodeFiles_keeps|].
  split; [by apply identifyCodeFiles_keeps|].
  intros this f Hname.
  assert (Hf : CodeFileIdentifier.isCodeFile toLowerCase this (name f) = false).
  { destruct Hname as [Hno | [[rest [-> Hno]] | [stem ->]]].
    - unfold CodeFileIdentifier.isCodeFile.
      destruct (lastIndexOf_cases (name f) ".")
        as [[-> _] | [stem [rest [Hs _]]]]; [done|].
      destruct Hno. rewrite Hs. apply hasUnit_app.
    - by apply (isCodeFile_split this "" rest).
    - rewrite (isCodeFile_split this stem "") by tauto. by destruct stem. }
  split; [done|]. unfold CodeFileIdentifier.identifyCodeFiles.
  rewrite list_elem_of_In, filter_In. intros [_ Hc]. congruence.
Qed.

Lemma identifyCodeFiles_exactly_recognised_witness :
  let hidden := {| name := ".gitignore"; localPath := "/tmp/bundle/.gitignore";
                   sizeBytes := JsNumber.ofZ 1024 |} in
  let this :=
    CodeFileIdentifier.new asciiLowerCase (Some [".gitignore"; "."; "makefile"]) in
  CodeFileIdentifier.isCodeFile asciiLowerCase this (name hidden) = false
  /\ hidden ∉ CodeFileIdentifier.identifyCodeFiles asciiLowerCase this
               (bundleOf [".gitignore"]).
Proof.
  intros hidden this.
  apply (proj2 (proj2 (proj2
    (identifyCodeFiles_exactly_recognised asciiLowerCase [".py"]
       (bundleOf [".gitignore"]))))
    this hidden).
  right. left. exists "gitignore". split; [reflexivity|].
  simpl. intros H. repeat (destruct H as [H|H]; [discriminate H|]). exact H.
Defined.

Example identifyCodeFiles_scenario :
  List.map name
    (CodeFileIdentifier.identifyCodeFiles asciiLowerCase
       (CodeFileIdentifier.new asciiLowerCase (Some [".py"; ".r"; ".ipynb"]))
       (bundleOf ["analysis.py"; "data.csv"; "notebook.ipynb"; "figure.png"; "model.r"]))
  = ["analysis.py"; "notebook.ipynb"; "model.r"]
  /\ List.map name
       (CodeFileIdentifier.identifyCodeFiles asciiLowerCase
          (CodeFileIdentifier.new asciiLowerCase None)
          (bundleOf ["Script.PY"; "README"; ".gitignore"; "notes."; "archive.tar.r"; ".py"]))
     = ["Script.PY"; "archive.tar.r"].
Proof. split; vm_compute; reflexivity. Qed.

(** ** Numbers and [slice] *)

Section NumberFacts.

Lemma isInteger_spec (x : number) :
  JsNumber.isInteger x = true <-> JsNumber.is_integer_value x.
Proof.
  unfold JsNumber.is_integer_value.
  destruct x as [q| | |]; try (split; [done | by intros [_ []]]).
  unfold JsNumber.isInteger. rewrite Z.eqb_eq. split.
  - intros Hden. exists (Qnum (Qred q)).
    rewrite <- (Qred_correct q) at 1. unfold Qeq, inject_Z. simpl.
    rewrite Hden. lia.
  - intros [z Hz]. apply Qred_complete in Hz.
    rewrite Hz, Qred_identity; [done|]. simpl. apply Z.gcd_1_r.
Qed.

Lemma lt_one_nonpositive (q : Q) :
  (q <= 0)%Q -> JsNumber.lt (Finite q) (JsNumber.ofZ 1) = true.
Proof.
  intros Hq. unfold JsNumber.lt, JsNumber.ofZ.
  assert (Hlt : (q < inject_Z 1)%Q) by (eapply Qle_lt_trans; [exact Hq | done]).
  by rewrite (proj1 (Qlt_alt q (inject_Z 1)) Hlt).
Qed.

Lemma positive_integer_passes (N : Z) :
  (0 < N)%Z ->
  JsNumber.isInteger (JsNumber.ofZ N) = true
  /\ JsNumber.lt (JsNumber.ofZ N) (JsNumber.ofZ 1) = false.
Proof.
  intros HN. split.
  - apply isInteger_spec. by exists N.
  - unfold JsNumber.lt, JsNumber.ofZ.
    destruct (Qcompare_spec (inject_Z N) (inject_Z 1)) as [H|H|H]; try done.
    unfold Qlt, inject_Z in H. simpl in H. lia.
Qed.

Lemma Array_slice0_integer {A : Type} (arr : list A) (N : Z) :
  (0 <= N)%Z ->
  Array_slice0 arr (JsNumber.ofZ N)
  = take (Z.to_nat (Z.min N (Z.of_nat (length arr)))) arr.
Proof.
  intros HN. unfold Array_slice0, JsNumber.ofZ, inject_Z. simpl.
  rewrite Z.quot_1_r. by destruct (Z.ltb_spec N 0); [lia|].
Qed.

End NumberFacts.

(** ** Promises *)

Section PromiseFacts.
Context {Reason : Type}.
Import Async.

Lemma firstRejection_None {A : Type} (ps : list (Promise Reason A)) :
  firstRejection ps = None <-> Forall (fun p => is_Some (valueOf p)) ps.
Proof.
  unfold valueOf. induction ps as [|p ps IH]; simpl.
  - split; [constructor | done].
  - rewrite Forall_cons. destruct (outcome p) as [v|e].
    + rewrite IH. split; [by split; [eexists|] | tauto].
    + split.
      * destruct (firstRejection ps) as [[t' e']|]; [|done]. by case_match.
      * intros [[? [=]] _].
Qed.

Lemma firstRejection_Some {A : Type} (ps : list (Promise Reason A))
    (t : nat) (e : Reason) :
  firstRejection ps = Some (t, e) ->
  exists p, p ∈ ps /\ outcome p = Rejected e /\ settledAt p = t
    /\ forall p' e', p' ∈ ps -> outcome p' = Rejected e' -> t <= settledAt p'.
Proof.
  revert t e. induction ps as [|p ps IH]; intros t e; simpl; [done|].
  destruct (outcome p) as [v|e0] eqn:Hp.
  - intros H. destruct (IH _ _ H) as [q [Hin [Hq [Ht Hmin]]]].
    exists q. repeat split; [by right | done | done |].
    intros p' e' Hin' Hp'. apply elem_of_cons in Hin' as [->|Hin']; [congruence|].
    by eapply Hmin.
  - destruct (firstRejection ps) as [[t' e']|] eqn:Hfr.
    + destruct (IH _ _ eq_refl) as [q [Hin [Hq [Ht Hmin]]]].
      destruct (Nat.ltb_spec t' (settledAt p)); intros [= <- <-].
      * exists q. repeat split; [by right | done | done |].
        intros p' e'' Hin' Hp'. apply elem_of_cons in Hin' as [->|Hin']; [lia|].
        by eapply Hmin.
      * exists p. repeat split; [by left | done |].
        intros p' e'' Hin' Hp'. apply elem_of_cons in Hin' as [->|Hin']; [lia|].
        specialize (Hmin _ _ Hin' Hp'). lia.
    + intros [= <- <-]. exists p. repeat split; [by left | done |].
      intros p' e'' Hin' Hp'. apply elem_of_cons in Hin' as [->|Hin']; [lia|].
      apply firstRejection_None in Hfr. rewrite Forall_forall in Hfr.
      destruct (Hfr _ Hin') as [v Hv]. unfold valueOf in Hv. by rewrite Hp' in Hv.
Qed.

Lemma omap_valueOf_fulfilled {A : Type} (ps : list (Promise Reason A)) :
  Forall (fun p => is_Some (valueOf p)) ps ->
  Forall2 (fun p v => outcome p = Fulfilled v) ps (omap valueOf ps).
Proof.
  induction 1 as [|p ps [v Hv] Hps IH]; simpl; [constructor|].
  rewrite Hv. constructor; [|done]. unfold valueOf in Hv.
  destruct (outcome p); congruence.
Qed.

Lemma omap_valueOf_values {A : Type} (ps : list (Promise Reason A)) (vs : list A) :
  Forall2 (fun p v => outcome p = Fulfilled v) ps vs ->
  omap valueOf ps = vs /\ Forall (fun p => is_Some (valueOf p)) ps.
Proof.
  induction 1 as [|p v ps vs Hp _ [IHv IHs]]; simpl; [done|].
  unfold valueOf at 1. rewrite Hp. simpl. split; [f_equal; exact IHv|].
  constructor; [|done]. unfold valueOf. rewrite Hp. by eexists.
Qed.

Lemma all_fulfilled {A : Type} (ps : list (Promise Reason A)) (vs : list A) :
  outcome (all ps) = Fulfilled vs <-> Forall2 (fun p v => outcome p = Fulfilled v) ps vs.
Proof.
  unfold all. split.
  - destruct (firstRejection ps) as [[t e]|] eqn:Hfr; simpl; [done|].
    intros [= <-]. apply omap_valueOf_fulfilled. by apply firstRejection_None.
  - intros Hall. destruct (omap_valueOf_values _ _ Hall) as [Hvs Hsome].
    apply firstRejection_None in Hsome. rewrite Hsome. simpl. by rewrite Hvs.
Qed.

Lemma all_rejected {A : Type} (ps : list (Promise Reason A)) (e : Reason) :
  outcome (all ps) = Rejected e ->
  exists p, p ∈ ps /\ outcome p = Rejected e /\ settledAt p = settledAt (all ps)
    /\ forall p' e', p' ∈ ps -> outcome p' = Rejected e' -> settledAt p <= settledAt p'.
Proof.
  unfold all. destruct (firstRejection ps) as [[t e0]|] eqn:Hfr; simpl; [|done].
  intros [= ->]. destruct (firstRejection_Some _ _ _ Hfr) as [p [Hin [Hp [Ht Hmin]]]].
  exists p. rewrite Ht. by repeat split.
Qed.

Lemma all_settles {A : Type} (ps : list (Promise Reason A)) :
  (exists vs, outcome (all ps) = Fulfilled vs /\ Forall (fun p => is_Some (valueOf p)) ps)
  \/ (exists e, outcome (all ps) = Rejected e /\ Exists (fun p => is_Some (reasonOf p)) ps).
Proof.
  unfold all. destruct (firstRejection ps) as [[t e]|] eqn:Hfr; simpl.
  - right. exists e. split; [done|].
    destruct (firstRejection_Some _ _ _ Hfr) as [p [Hin [Hp _]]].
    apply Exists_exists. exists p. split; [done|]. unfold reasonOf. rewrite Hp. by eexists.
  - left. eexists. split; [done|]. by apply firstRejection_None.
Qed.

End PromiseFacts.

(** ** The orchestrators *)

Section EffectFacts.
Context {Reason World : Type}.
Import Async.

Lemma mapArray_cons {W A B : Type} (f : A -> Eff W B) (x : A) (arr : list A) (w : W) :
  mapArray f (x :: arr) w
  = (fst (f x w) :: fst (mapArray f arr (snd (f x w))),
     snd (mapArray f arr (snd (f x w)))).
Proof.
  simpl. unfold bind, ret. destruct (f x w) as [y w1]. simpl.
  by destruct (mapArray f arr w1).
Qed.

Lemma mapArray_length {W A B : Type} (f : A -> Eff W B) (arr : list A) (w : W) :
  length (fst (mapArray f arr w)) = length arr.
Proof.
  revert w. induction arr as [|x arr IH]; intros w; [done|].
  rewrite mapArray_cons. simpl. by rewrite IH.
Qed.

(** Under a spy the calls are those of the bare function, one per
    element and in the order of the array, each noted with what it
    handed back; a pure step after each call does not change that. *)
Lemma mapArray_spy_then {X Args A B : Type}
    (f : Args -> Eff World (Promise Reason A)) (h : X -> Args)
    (k : X -> Promise Reason A -> B) (arr : list X)
    (w : World) (calls : list (Args * Promise Reason A)) :
  mapArray (fun x => let* p := spyAsync f (h x) in ret (k x p)) arr (w, calls)
  = (zip_with k arr (fst (mapArray (fun x => f (h x)) arr w)),
     (snd (mapArray (fun x => f (h x)) arr w),
      calls ++ combine (map h arr) (fst (mapArray (fun x => f (h x)) arr w)))).
Proof.
  revert w calls. induction arr as [|x arr IH]; intros w calls.
  - simpl. unfold ret. by rewrite app_nil_r.
  - assert (Hstep : (let* p := spyAsync f (h x) in ret (k x p)) (w, calls)
        = (k x (fst (f (h x) w)),
           (snd (f (h x) w), calls ++ [(h x, fst (f (h x) w))]))).
    { unfold bind, spyAsync, ret. by destruct (f (h x) w). }
    rewrite !mapArray_cons, Hstep. simpl. rewrite IH. simpl.
    by rewrite <- app_assoc.
Qed.

(** Under a spy the loop that may throw goes as without it, and the log
    grows by the calls of the loop. *)
Lemma mapArrayOrThrow_spy {Args A : Type}
    (f : Args -> Throws Reason World (Promise Reason A)) (arr : list Args)
    (w : World) (calls : list (Args * Promise Reason A)) :
  mapArrayOrThrow (spy f) arr (w, calls)
  = (fst (mapArrayOrThrow f arr w),
     (snd (mapArrayOrThrow f arr w), calls ++ callsOf f arr w)).
Proof.
  revert w calls. induction arr as [|x arr IH]; intros w calls; simpl.
  - by rewrite app_nil_r.
  - unfold spy at 1. destruct (f x w) as [[p|e] w1]; simpl; [|done].
    rewrite IH. destruct (mapArrayOrThrow f arr w1) as [[ps|e] w2]; simpl;
      by rewrite <- app_assoc.
Qed.

(** The two ways the loop can go: to its end, with one call noted per
    element; or up to a call that throws, noted last. *)
Lemma callsOf_cases {Args A : Type}
    (f : Args -> Throws Reason World (Promise Reason A)) (arr : list Args) (w : World) :
  (exists ps, fst (mapArrayOrThrow f arr w) = Returned ps
      /\ length ps = length arr /\ callsOf f arr w = combine arr ps)
  \/ (exists e pre x ps, fst (mapArrayOrThrow f arr w) = Thrown e
      /\ (pre ++ [x]) `prefix_of` arr /\ length ps = length pre
      /\ callsOf f arr w = combine pre ps ++ [(x, reject e)]).
Proof.
  revert w. induction arr as [|x arr IH]; intros w; simpl.
  - left. by exists [].
  - destruct (f x w) as [[p|e] w1]; simpl.
    + destruct (IH w1) as [[ps [Hret [Hlen Hcalls]]]
                          | [e [pre [x' [ps [Hthrow [Hpre [Hlen Hcalls]]]]]]]].
      * left. exists (p :: ps). destruct (mapArrayOrThrow f arr w1) as [[ps'|e'] w2];
          simplify_eq/=. by rewrite Hlen, Hcalls.
      * right. exists e, (x :: pre), x', (p :: ps).
        destruct (mapArrayOrThrow f arr w1) as [[ps'|e'] w2]; simplify_eq/=.
        rewrite Hlen, Hcalls. repeat split; try done. by apply prefix_cons.
    + right. exists e, [], x, []. repeat split; try done.
      apply prefix_cons, prefix_nil.
Qed.

Lemma callsOf_neverThrows {Args A : Type}
    (f : Args -> Throws Reason World (Promise Reason A)) (arr : list Args) (w : World) :
  neverThrows f -> map fst (callsOf f arr w) = arr.
Proof.
  intros Hf. revert w. induction arr as [|x arr IH]; intros w; simpl; [done|].
  destruct (Hf x w) as [p [w1 ->]]. simpl. by rewrite IH.
Qed.

Lemma callsOf_app_prefix {Args A : Type}
    (f : Args -> Throws Reason World (Promise Reason A)) (l1 l2 : list Args) (w : World) :
  callsOf f l1 w `prefix_of` callsOf f (l1 ++ l2) w.
Proof.
  revert w. induction l1 as [|x l1 IH]; intros w; simpl; [apply prefix_nil|].
  destruct (f x w) as [[p|e] w1]; [by apply prefix_cons | done].
Qed.

Lemma combine_fst {A B : Type} (l : list A) (l' : list B) :
  length l' = length l -> map fst (combine l l') = l.
Proof.
  revert l'. induction l as [|x l IH]; intros [|y l']; simpl; try done.
  intros [= H]. by rewrite IH.
Qed.

Lemma combine_snd {A B : Type} (l : list A) (l' : list B) :
  length l' = length l -> map snd (combine l l') = l'.
Proof.
  revert l'. induction l as [|x l IH]; intros [|y l']; simpl; try done.
  intros [= H]. by rewrite IH.
Qed.

End EffectFacts.

Section OrchestratorFacts.
Context {Reason World : Type}.
Variable Error : string -> Reason.
Variable numberToString : number -> string.
Variable toLowerCase : string -> string.
Import Async.

Lemma all_failsFast {Args A : Type} (calls : list (Args * Promise Reason A)) :
  failsFast calls (all (map snd calls)).
Proof.
  intros call e Hin He.
  assert (Hfirst : exists first e1,
        first ∈ calls /\ outcome (snd first) = Rejected e1
        /\ outcome (all (map snd calls)) = Rejected e1
        /\ forall other e2, other ∈ calls -> outcome (snd other) = Rejected e2 ->
             settledAt (snd first) <= settledAt (snd other)).
  { destruct (all_settles (map snd calls)) as [[vs [_ Hall]] | [e1 [Hres _]]].
    - rewrite Forall_forall in Hall.
      destruct (Hall (snd call)) as [v Hv].
      + apply list_elem_of_In, in_map, list_elem_of_In, Hin.
      + unfold valueOf in Hv. by rewrite He in Hv.
    - destruct (all_rejected _ _ Hres) as [p [Hp [Hout [_ Hmin]]]].
      apply list_elem_of_In, in_map_iff in Hp as [first [<- Hfirst]].
      exists first, e1. repeat split; [by apply list_elem_of_In | done | done |].
      intros other e2 Hother Ho. eapply Hmin; [|done].
      apply list_elem_of_In, in_map, list_elem_of_In, Hother. }
  split; [done|]. intros Hsame.
  destruct Hfirst as [first [e1 [Hf [Ho [Hres _]]]]].
  by rewrite Hres, (Hsame _ _ Hf Ho).
Qed.

Lemma reasonOf_Some {A : Type} (p : Promise Reason A) (e : Reason) :
  reasonOf p = Some e <-> outcome p = Rejected e.
Proof. unfold reasonOf. destruct (outcome p); split; congruence. Qed.

Lemma failsFast_transfer {Args Args' A A' B : Type}
    (calls : list (Args * Promise Reason A))
    (calls' : list (Args' * Promise Reason A')) (result : Promise Reason B) :
  Forall2 (fun c c' => settledAt (snd c) = settledAt (snd c')
                       /\ reasonOf (snd c) = reasonOf (snd c')) calls calls' ->
  failsFast calls' result -> failsFast calls result.
Proof.
  intros Hrel Hff call e Hin He.
  assert (Hfirst : exists first e1,
        first ∈ calls /\ outcome (snd first) = Rejected e1
        /\ outcome result = Rejected e1
        /\ forall other e2, other ∈ calls -> outcome (snd other) = Rejected e2 ->
             settledAt (snd first) <= settledAt (snd other)).
  { apply list_elem_of_lookup in Hin as [i Hi].
    destruct (Forall2_lookup_l _ _ _ _ _ Hrel Hi) as [call' [Hi' [_ Hr]]].
    assert (He' : outcome (snd call') = Rejected e).
    { apply reasonOf_Some. rewrite <- Hr. by apply reasonOf_Some. }
    destruct (Hff call' e (list_elem_of_lookup_2 _ _ _ Hi') He')
      as [[first' [e1 [Hf' [Ho' [Hres Hmin]]]]] _].
    apply list_elem_of_lookup in Hf' as [j Hj'].
    destruct (Forall2_lookup_r _ _ _ _ _ Hrel Hj') as [first [Hj [Ht Hr1]]].
    exists first, e1. repeat split; [by eapply list_elem_of_lookup_2 | | done |].
    - apply reasonOf_Some. rewrite Hr1. by apply reasonOf_Some.
    - intros other e2 Hother Ho. apply list_elem_of_lookup in Hother as [n Hn].
      destruct (Forall2_lookup_l _ _ _ _ _ Hrel Hn) as [other' [Hn' [Ht2 Hr2]]].
      rewrite Ht, Ht2. eapply Hmin; [by eapply list_elem_of_lookup_2|].
      apply reasonOf_Some. rewrite <- Hr2. by apply reasonOf_Some. }
  split; [done|]. intros Hsame.
  destruct Hfirst as [first [e1 [Hf [Ho [Hres _]]]]].
  by rewrite Hres, (Hsame _ _ Hf Ho).
Qed.

Lemma hasAny_list (r : JournalRegistry.t) :
  JournalRegistry.hasAny r = false <-> JournalRegistry.list r = [].
Proof.
  unfold JournalRegistry.hasAny, JournalRegistry.list, JsMap.size, JsMap.values.
  by destruct (JournalRegistry.journals r).
Qed.

Lemma Array_slice0_prefix {A : Type} (arr : list A) (x : number) :
  Array_slice0 arr x `prefix_of` arr.
Proof.
  destruct x; simpl; try apply prefix_nil; try done.
  eexists. symmetry. apply take_drop.
Qed.

Lemma downloadBundles_refused (C : list Article)
    (download : @DownloadBundleFn Reason World) (cap : number)
    (w : World) (calls : list (Article * Promise Reason SupplementaryBundle)) :
  JsNumber.isInteger cap = false \/ JsNumber.lt cap (JsNumber.ofZ 1) = true ->
  downloadBundles Error numberToString C (spy download) (Some cap) (w, calls)
  = (reject (Error ("maxBundles must be a positive integer, got: "
                    +:+ numberToString cap)),
     (w, calls)).
Proof.
  intros Hbad. unfold downloadBundles. cbn [from_option id].
  by destruct Hbad as [-> | ->]; rewrite ?orb_true_r.
Qed.

Lemma downloadBundles_accepted (C : list Article)
    (download : @DownloadBundleFn Reason World) (cap : number) (w : World) :
  JsNumber.isInteger cap = true -> JsNumber.lt cap (JsNumber.ofZ 1) = false ->
  downloadBundles Error numberToString C (spy download) (Some cap) (w, [])
  = (match fst (mapArrayOrThrow download (Array_slice0 C cap) w) with
     | Returned ps => all ps
     | Thrown e => reject e
     end,
     (snd (mapArrayOrThrow download (Array_slice0 C cap) w),
      callsOf download (Array_slice0 C cap) w)).
Proof.
  intros Hint Hlt. unfold downloadBundles. cbn [from_option id]. rewrite Hint, Hlt.
  cbn [negb orb]. unfold asyncAwait. rewrite mapArrayOrThrow_spy.
  by destruct (mapArrayOrThrow download (Array_slice0 C cap) w) as [[ps|e] w'].
Qed.

(** A run of [downloadBundles] with a cap that passes, by the two ways
    its loop can go. *)
Lemma downloadBundles_run (C : list Article)
    (download : @DownloadBundleFn Reason World) (cap : number) (w : World) :
  JsNumber.isInteger cap = true -> JsNumber.lt cap (JsNumber.ofZ 1) = false ->
  let run := downloadBundles Error numberToString C (spy download) (Some cap) (w, []) in
  let batch := Array_slice0 C cap in
  snd (snd run) = callsOf download batch w
  /\ ((exists ps, length ps = length batch
         /\ snd (snd run) = combine batch ps /\ fst run = all ps)
      \/ (exists e pre x ps, (pre ++ [x]) `prefix_of` batch /\ length ps = length pre
            /\ snd (snd run) = combine pre ps ++ [(x, reject e)]
            /\ fst run = reject e)).
Proof.
  intros Hint Hlt run batch. subst run.
  rewrite (downloadBundles_accepted _ _ _ _ Hint Hlt). cbn [fst snd]. fold batch.
  split; [done|].
  destruct (callsOf_cases download batch w)
    as [[ps [Hret [Hlen Hcalls]]] | [e [pre [x [ps [Hthrow [Hpre [Hlen Hcalls]]]]]]]].
  - left. exists ps. by rewrite Hret.
  - right. exists e, pre, x, ps. by rewrite Hthrow.
Qed.

(** A log that ends with a call that threw, under a result rejected
    with what was thrown. *)
Lemma thrown_failsFast {Args A B : Type} (calls : list (Args * Promise Reason A))
    (x : Args) (e : Reason) :
  failsFast (calls ++ [(x, reject e)]) (reject e : Promise Reason B).
Proof.
  intros call e' Hin He'.
  assert (Hlast : (x, @reject Reason A e) ∈ calls ++ [(x, reject e)]).
  { apply elem_of_app. right. by apply list_elem_of_singleton. }
  split.
  - exists (x, reject e), e. repeat split; try done.
    intros other e2 _ _. simpl. lia.
  - intros Hsame. by rewrite (Hsame _ e Hlast eq_refl).
Qed.

Lemma identifyCandidates_refused (registry : JournalRegistry.t)
    (scanner : KeywordScanner.t) (fetch : @FetchArticlesFn Reason World)
    (page : option number) (w : World)
    (calls : list ((string * number) * Promise Reason (list Article))) :
  JournalRegistry.hasAny registry = false ->
  identifyCandidates Error toLowerCase registry scanner (spyFetch fetch) page (w, calls)
  = (reject (Error
       "JournalRegistry is empty — register at least one journal before scanning."),
     (w, calls)).
Proof. intros Hnone. unfold identifyCandidates. by rewrite Hnone. Qed.

Lemma identifyCandidates_accepted (registry : JournalRegistry.t)
    (scanner : KeywordScanner.t) (fetch : @FetchArticlesFn Reason World)
    (page : option number) (w : World) :
  JournalRegistry.hasAny registry = true ->
  let journals := JournalRegistry.list registry in
  let pageArg := match page with Some p => p | None => JsNumber.ofZ 1 end in
  let record := fun (j : Journal) (p : Promise Reason (list Article)) =>
    andThen p (fun articles =>
      {| journalId := journal_id j;
         candidates := KeywordScanner.filterCandidates toLowerCase scanner articles |}) in
  let fetched := mapArray (fun j => fetch (journal_id j) pageArg) journals w in
  identifyCandidates Error toLowerCase registry scanner (spyFetch fetch) page (w, [])
  = (all (zip_with record journals (fst fetched)),
     (snd fetched,
      combine (map (fun j => (journal_id j, pageArg)) journals) (fst fetched))).
Proof.
  intros Hany journals pageArg record fetched. unfold identifyCandidates.
  rewrite Hany. cbn [negb]. unfold bind at 1. unfold spyFetch.
  rewrite (mapArray_spy_then (fun a => fetch (fst a) (snd a))
             (fun j => (journal_id j, pageArg)) record).
  by destruct page.
Qed.


Section Records.
Variable scanner : KeywordScanner.t.

Local Abbreviation record := (recordPromise toLowerCase scanner).

Lemma records_of_calls (pageArg : number) (journals : list Journal)
    (ps : list (Promise Reason (list Article)))
    (results : list JournalCandidateResult) :
  length ps = length journals ->
  Forall2 (fun q r => outcome q = Fulfilled r) (zip_with record journals ps) results ->
  Forall2 (recordOfCall toLowerCase scanner)
    (combine (map (fun j => (journal_id j, pageArg)) journals) ps) results.
Proof.
  revert ps results.
  induction journals as [|j journals IH]; intros [|p ps] results Hlen; simplify_eq/=.
  - inversion 1. constructor.
  - inversion 1 as [|q r qs rs Hq Hrest]; subst.
    constructor; [|by apply IH].
    unfold recordPromise, andThen in Hq. simpl in Hq.
    destruct (outcome p) as [articles|e] eqn:Hp; [|done].
    injection Hq as <-. split; [done|]. by exists articles.
Qed.

Lemma calls_of_records (pageArg : number) (journals : list Journal)
    (ps : list (Promise Reason (list Article)))
    (results : list JournalCandidateResult) :
  length ps = length journals ->
  Forall2 (recordOfCall toLowerCase scanner)
    (combine (map (fun j => (journal_id j, pageArg)) journals) ps) results ->
  Forall2 (fun q r => outcome q = Fulfilled r) (zip_with record journals ps) results.
Proof.
  revert ps results.
  induction journals as [|j journals IH]; intros [|p ps] results Hlen; simplify_eq/=.
  - inversion 1. constructor.
  - inversion 1 as [|c r cs rs [Hid [articles [Hp Hc]]] Hrest]; subst.
    constructor; [|by apply IH].
    unfold recordPromise, andThen. simpl in *. rewrite Hp.
    destruct r as [rid rcs]. simpl in *. by subst.
Qed.

Lemma calls_mirror_records (pageArg : number) (journals : list Journal)
    (ps : list (Promise Reason (list Article))) :
  length ps = length journals ->
  Forall2 (fun c c' => settledAt (snd c) = settledAt (snd c')
                       /\ reasonOf (snd c) = reasonOf (snd c'))
    (combine (map (fun j => (journal_id j, pageArg)) journals) ps)
    (combine journals (zip_with record journals ps)).
Proof.
  revert ps.
  induction journals as [|j journals IH]; intros [|p ps] Hlen; simplify_eq/=.
  - constructor.
  - constructor; [|by apply IH].
    unfold recordPromise, andThen, reasonOf. simpl. by destruct (outcome p).
Qed.

Lemma identifyCandidates_run (registry : JournalRegistry.t)
    (fetch : @FetchArticlesFn Reason World) (page : option number) (w : World) :
  let run := identifyCandidates Error toLowerCase registry scanner
               (spyFetch fetch) page (w, []) in
  let journals := JournalRegistry.list registry in
  let pageArg := match page with Some p => p | None => JsNumber.ofZ 1 end in
  journals <> [] ->
  map fst (snd (snd run)) = map (fun j => (journal_id j, pageArg)) journals
  /\ failsFast (snd (snd run)) (fst run)
  /\ forall results, outcome (fst run) = Fulfilled results <->
       Forall2 (recordOfCall toLowerCase scanner) (snd (snd run)) results.
Proof.
  intros run journals pageArg Hsome.
  assert (Hany : JournalRegistry.hasAny registry = true).
  { destruct (JournalRegistry.hasAny registry) eqn:E; [done|].
    by apply hasAny_list in E. }
  subst run. rewrite (identifyCandidates_accepted _ _ _ _ _ Hany).
  fold journals pageArg. cbn [fst snd].
  pose proof (mapArray_length (fun j => fetch (journal_id j) pageArg) journals w) as Hlen.
  set (ps := fst (mapArray (fun j => fetch (journal_id j) pageArg) journals w)) in *.
  change (zip_with _ journals ps) with (zip_with record journals ps).
  split; [|split].
  - apply combine_fst. by rewrite length_map.
  - eapply failsFast_transfer; [by apply calls_mirror_records|].
    rewrite <- (combine_snd journals (zip_with record journals ps)) at 2.
    + apply all_failsFast.
    + rewrite length_zip_with. lia.
  - intros results. rewrite all_fulfilled. split.
    + by apply records_of_calls.
    + by apply calls_of_records.
Qed.

End Records.

(** C3.  On a registry without journals [identifyCandidates] hands back
    a promise rejected with its own error, and the fetch collaborator has
    not been called.  On a registry with journals it calls the collaborator
    once per journal of [list ()], with the journal's id and the page, 1
    when no page is given; and the result is fulfilled with a list exactly
    when that list holds one record per call, so one per journal, each
    made of the journal's id and [filterCandidates] of the articles that
    the call for it fetched: a result that rejects while every fetch is
    fulfilled does not pass. *)
Theorem identifyCandidates_one_fetch_per_journal
    (registry : JournalRegistry.t) (scanner : KeywordScanner.t)
    (fetch : @FetchArticlesFn Reason World) (page : option number) (w : World) :
  let run := identifyCandidates Error toLowerCase registry scanner
               (spyFetch fetch) page (w, []) in
  let result := fst run in
  let calls := snd (snd run) in
  let journals := JournalRegistry.list registry in
  let pageArg := match page with Some p => p | None => JsNumber.ofZ 1 end in
  (journals = [] ->
     outcome result = Rejected (Error
       "JournalRegistry is empty — register at least one journal before scanning.")
     /\ calls = [] /\ fst (snd run) = w)
  /\ (journals <> [] ->
      map fst calls = map (fun j => (journal_id j, pageArg)) journals
      /\ (forall results, outcome result = Fulfilled results
            <-> Forall2 (recordOfCall toLowerCase scanner) calls results)
      /\ (forall results, outcome result = Fulfilled results ->
            length results = length journals)).
Proof.
  intros run result calls journals pageArg. split.
  - intros Hnone. apply hasAny_list in Hnone.
    subst result calls run. by rewrite (identifyCandidates_refused _ _ _ _ _ _ Hnone).
  - intros Hsome.
    destruct (identifyCandidates_run scanner registry fetch page w Hsome)
      as [Hcalls [_ Hrecords]].
    split; [done|]. split; [done|]. intros results Hres.
    apply Hrecords, Forall2_length in Hres. fold run calls in Hres.
    rewrite <- Hres, <- (length_map fst calls). fold run in Hcalls. fold calls in Hcalls.
    by rewrite Hcalls, length_map.
Qed.

(** C9.  When [identifyCandidates] succeeds, the ids of its records are
    the ids of [registry.list ()], in that order. *)
Theorem identifyCandidates_results_in_list_order
    (registry : JournalRegistry.t) (scanner : KeywordScanner.t)
    (fetch : @FetchArticlesFn Reason World) (page : option number) (w : World)
    (results : list JournalCandidateResult) :
  outcome (fst (identifyCandidates Error toLowerCase registry scanner
                  (spyFetch fetch) page (w, [])))
    = Fulfilled results ->
  map journalId results = map journal_id (JournalRegistry.list registry).
Proof.
  intros Hres.
  destruct (JournalRegistry.hasAny registry) eqn:Hany.
  - assert (Hsome : JournalRegistry.list registry <> []).
    { intros Hnil. apply hasAny_list in Hnil. congruence. }
    destruct (identifyCandidates_run scanner registry fetch page w Hsome)
      as [Hcalls [_ Hrecords]].
    apply Hrecords in Hres. rename Hres into Hrecs. clear Hrecords.
    set (calls := snd (snd (identifyCandidates Error toLowerCase registry scanner
                              (spyFetch fetch) page (w, [])))) in *.
    assert (Hids : map journalId results = map fst (map fst calls)).
    { clear Hcalls.
      induction Hrecs as [|c r cs rs [Hid _] _ IH]; simpl; [done|].
      by rewrite Hid, IH. }
    rewrite Hids, Hcalls, map_map. done.
  - by rewrite (identifyCandidates_refused _ _ _ _ _ _ Hany) in Hres.
Qed.

(** C5.  In both orchestrators a rejection of a collaborator's promise
    becomes the rejection of the result with the collaborator's own
    reason (of the first rejection, when several calls fail): no list, in
    part or whole, is handed back.  The log has one call per element at
    most, so nothing is tried again.  A call of the download function
    that throws stands in the log as a rejection at once, and the same
    holds of it. *)
Theorem collaborator_failure_propagates
    (registry : JournalRegistry.t) (scanner : KeywordScanner.t)
    (fetch : @FetchArticlesFn Reason World) (page : option number)
    (C : list Article) (download : @DownloadBundleFn Reason World)
    (maxBundles : option number) (w : World) :
  let scan := identifyCandidates Error toLowerCase registry scanner
                (spyFetch fetch) page (w, []) in
  let load := downloadBundles Error numberToString C (spy download) maxBundles (w, []) in
  let pageArg := match page with Some p => p | None => JsNumber.ofZ 1 end in
  failsFast (snd (snd scan)) (fst scan)
  /\ map fst (snd (snd scan))
     `prefix_of` map (fun j => (journal_id j, pageArg)) (JournalRegistry.list registry)
  /\ failsFast (snd (snd load)) (fst load)
  /\ map fst (snd (snd load)) `prefix_of` C.
Proof.
  intros scan load pageArg.
  assert (Hscan : failsFast (snd (snd scan)) (fst scan)
    /\ map fst (snd (snd scan))
       `prefix_of` map (fun j => (journal_id j, pageArg)) (JournalRegistry.list registry)).
  { destruct (JournalRegistry.hasAny registry) eqn:Hany.
    - assert (Hsome : JournalRegistry.list registry <> []).
      { intros Hnil. apply hasAny_list in Hnil. congruence. }
      destruct (identifyCandidates_run scanner registry fetch page w Hsome)
        as [Hcalls [Hff _]].
      fold scan in Hcalls, Hff. fold pageArg in Hcalls. by rewrite Hcalls.
    - subst scan. rewrite (identifyCandidates_refused _ _ _ _ _ _ Hany). simpl.
      split; [|apply prefix_nil]. intros call e Hin. by apply elem_of_nil in Hin. }
  destruct Hscan as [Hff Hpre]. split; [done|]. split; [done|].
  assert (Hload : forall cap,
    let load := downloadBundles Error numberToString C (spy download) (Some cap) (w, []) in
    failsFast (snd (snd load)) (fst load) /\ map fst (snd (snd load)) `prefix_of` C).
  { intros cap.
    destruct (JsNumber.isInteger cap) eqn:Hint;
      [destruct (JsNumber.lt cap (JsNumber.ofZ 1)) eqn:Hlt|].
    2:{ pose proof (downloadBundles_run C download cap w Hint Hlt) as Hrun.
        cbn zeta in Hrun |- *. destruct Hrun
          as [_ [[ps [Hlen [-> ->]]] | [e [pre [x [ps [Hin [Hlen [-> ->]]]]]]]]].
        - split.
          + rewrite <- (combine_snd (Array_slice0 C cap) ps Hlen) at 2.
            apply all_failsFast.
          + rewrite (combine_fst _ _ Hlen). apply Array_slice0_prefix.
        - split; [apply thrown_failsFast|].
          rewrite map_app, (combine_fst _ _ Hlen). simpl.
          etrans; [exact Hin | apply Array_slice0_prefix]. }
    all: rewrite downloadBundles_refused by auto; simpl.
    all: split; [|apply prefix_nil]; intros call e Hin; by apply elem_of_nil in Hin. }
  destruct maxBundles as [cap|]; [apply Hload | apply (Hload DEFAULT_MAX_BUNDLES)].
Qed.


(** C6.  With a cap that is zero or negative, or that is no integer (a
    fraction, [NaN], an infinity), [downloadBundles] hands back a promise
    already rejected with its own error; the collaborator has not been
    called and the world is as it was, whatever the candidates. *)
Theorem downloadBundles_bad_cap_no_call
    (C : list Article) (download : @DownloadBundleFn Reason World)
    (cap : number) (w : World) :
  (exists q, cap = Finite q /\ (q <= 0)%Q) \/ ~ JsNumber.is_integer_value cap ->
  downloadBundles Error numberToString C (spy download) (Some cap) (w, [])
  = (reject (Error ("maxBundles must be a positive integer, got: "
                    +:+ numberToString cap)),
     (w, [])).
Proof.
  intros Hbad. apply downloadBundles_refused.
  destruct Hbad as [[q [-> Hq]] | Hfrac].
  - right. by apply lt_one_nonpositive.
  - left. destruct (JsNumber.isInteger cap) eqn:E; [|done].
    destruct Hfrac. by apply isInteger_spec.
Qed.

End OrchestratorFacts.

(** ** The theorems at work on the stubs of the test suite *)




Lemma downloadBundles_bad_cap_no_call_witness :
  downloadBundles stubError stubNumberToString threeCandidates (spy flakyDownload)
    (Some (JsNumber.ofZ 0)) (0%nat, [])
  = (Async.reject "maxBundles must be a positive integer, got: <number>", (0%nat, [])).
Proof.
  apply (downloadBundles_bad_cap_no_call stubError stubNumberToString
           threeCandidates flakyDownload (JsNumber.ofZ 0) 0%nat).
  left. exists (inject_Z 0). split; [reflexivity|]. unfold Qle. simpl. lia.
Defined.

Lemma identifyCandidates_one_fetch_per_journal_witness :
  map fst (snd (snd (identifyCandidates stubError asciiLowerCase scenarioRegistry
                       scenarioScanner (spyFetch stubFetch) None (0%nat, []))))
  = [("nature", JsNumber.ofZ 1); ("science", JsNumber.ofZ 1)]
  /\ Async.outcome
       (fst (identifyCandidates stubError asciiLowerCase scenarioRegistry
               scenarioScanner (spyFetch stubFetch) None (0%nat, [])))
     = Async.Fulfilled scenarioResults.
Proof.
  destruct (identifyCandidates_one_fetch_per_journal stubError asciiLowerCase
              scenarioRegistry scenarioScanner stubFetch None 0%nat) as [_ Hsome].
  destruct Hsome as [Hcalls [Hrecords _]]; [simpl; discriminate|].
  split; [exact Hcalls|]. apply Hrecords. vm_compute.
  repeat constructor; eexists; split; reflexivity.
Defined.

Lemma identifyCandidates_results_in_list_order_witness :
  map journalId scenarioResults = map journal_id (JournalRegistry.list scenarioRegistry).
Proof.
  apply (identifyCandidates_results_in_list_order stubError asciiLowerCase
           scenarioRegistry scenarioScanner stubFetch None 0%nat scenarioResults).
  vm_compute. reflexivity.
Defined.

Lemma collaborator_failure_propagates_witness :
  Async.outcome
    (fst (downloadBundles stubError stubNumberToString threeCandidates
            (spy flakyDownload) None (0%nat, [])))
  = Async.Rejected "Network failure".
Proof.
  destruct (collaborator_failure_propagates stubError stubNumberToString
              asciiLowerCase scenarioRegistry scenarioScanner stubFetch None
              threeCandidates flakyDownload None 0%nat) as [_ [_ [Hload _]]].
  apply (Hload (makeArticle "bad" "Second",
                Async.mkPromise 99 (Async.Rejected "Network failure"))
               "Network failure").
  - vm_compute. apply list_elem_of_In. simpl. auto.
  - reflexivity.
  - intros other e2 Hin Ho. vm_compute in Hin. apply list_elem_of_In in Hin.
    simpl in Hin. destruct Hin as [<-|[<-|[<-|[]]]]; simpl in Ho; congruence.
Defined.

Example downloadBundles_default_cap :
  let candidates := List.map (fun i => makeArticle i "Title")
    ["0"; "1"; "2"; "3"; "4"; "5"; "6"; "7"; "8"; "9"; "10"; "11"; "12"; "13"; "14"] in
  let run := downloadBundles stubError stubNumberToString candidates
               (spy echoDownload) None (0%nat, []) in
  Async.outcome (fst run) = Async.Fulfilled (List.map makeBundle (take 10 candidates))
  /\ List.map fst (snd (snd run)) = take 10 candidates
  /\ fst (snd run) = 10%nat.
Proof. vm_compute. repeat split; reflexivity. Qed.

Example identifyCandidates_scenario :
  let run := identifyCandidates stubError asciiLowerCase scenarioRegistry scenarioScanner
               (spyFetch stubFetch) None (0%nat, []) in
  Async.outcome (fst run) = Async.Fulfilled scenarioResults
  /\ fst (snd run) = 2%nat.
Proof. vm_compute. split; reflexivity. Qed.

Example identifyCandidates_failing_fetch :
  let registry := JournalRegistry.register
    {| journal_id := "cell"; displayName := "Cell"; endpoints := [] |} scenarioRegistry in
  let run := identifyCandidates stubError asciiLowerCase registry scenarioScanner
               (spyFetch stubFetch) (Some (JsNumber.ofZ 3)) (0%nat, []) in
  Async.outcome (fst run) = Async.Rejected "Network timeout"
  /\ List.map fst (snd (snd run))
     = [("nature", JsNumber.ofZ 3); ("science", JsNumber.ofZ 3); ("cell", JsNumber.ofZ 3)].
Proof. vm_compute. split; reflexivity. Qed.

(** * Further properties *)

(** ** JournalRegistry, the rest of its behaviour *)

Section MoreMapFacts.
Context {V : Type}.
Implicit Types (m : list (string * V)) (k : string) (v : V).

Lemma JsMap_get_delete_ne m k k' :
  k' <> k -> JsMap.get k' (snd (JsMap.delete k m)) = JsMap.get k' m.
Proof.
  intros Hne. induction m as [|[k0 v0] m IH]; simpl; [done|].
  destruct (String.eqb_spec k0 k) as [->|Hk]; simpl.
  - by destruct (String.eqb_spec k k') as [->|].
  - destruct (JsMap.delete k m) as [b m']. simpl in *. by rewrite IH.
Qed.

Lemma JsMap_delete_filter m k :
  JsMap.wf m ->
  snd (JsMap.delete k m) = List.filter (fun e => negb (String.eqb (fst e) k)) m.
Proof.
  unfold JsMap.wf. induction m as [|[k0 v0] m IH]; simpl; [done|].
  intros Hnd. apply NoDup_cons in Hnd as [Hout Hnd].
  destruct (String.eqb_spec k0 k) as [->|Hk]; simpl.
  - symmetry. apply forallb_filter_id. apply forallb_forall. intros [k1 v1] Hin. simpl.
    destruct (String.eqb_spec k1 k) as [->|]; [|done].
    destruct Hout. apply list_elem_of_In. by apply (in_map fst) in Hin.
  - specialize (IH Hnd). destruct (JsMap.delete k m) as [b m']. simpl in *.
    by rewrite IH.
Qed.

Lemma JsMap_delete_length m k v :
  JsMap.get k m = Some v -> S (length (snd (JsMap.delete k m))) = length m.
Proof.
  induction m as [|[k0 v0] m IH]; simpl; [done|].
  destruct (String.eqb k0 k); simpl; [done|].
  intros H. specialize (IH H). destruct (JsMap.delete k m) as [b m']. simpl in *.
  by rewrite IH.
Qed.

Lemma JsMap_set_set m k v1 v2 :
  JsMap.set k v2 (JsMap.set k v1 m) = JsMap.set k v2 m.
Proof.
  induction m as [|[k0 v0] m IH]; simpl.
  - by rewrite String.eqb_refl.
  - destruct (String.eqb k0 k) eqn:E; simpl.
    + by rewrite String.eqb_refl.
    + by rewrite E, IH.
Qed.

Lemma JsMap_get_Some_iff m k v :
  JsMap.wf m -> JsMap.get k m = Some v <-> In (k, v) m.
Proof.
  unfold JsMap.wf. induction m as [|[k0 v0] m IH]; simpl; [by split|].
  intros Hnd. apply NoDup_cons in Hnd as [Hout Hnd].
  destruct (String.eqb_spec k0 k) as [->|Hk].
  - split.
    + intros [= ->]. by left.
    + intros [[= ->]|Hin]; [done|]. destruct Hout.
      apply list_elem_of_In. by apply (in_map fst) in Hin.
  - rewrite (IH Hnd). split; [tauto|]. intros [[= -> _]|Hin]; [done | tauto].
Qed.

End MoreMapFacts.

Section MoreRegistryFacts.

Lemma applyOp_wf (r : JournalRegistry.t) (op : RegistryOp) :
  JournalRegistry.wf r -> JournalRegistry.wf (applyOp r op).
Proof.
  destruct op; simpl.
  - apply JournalRegistry_register_wf.
  - apply JournalRegistry_remove_wf.
Qed.

Lemma runOps_wf (initial : list Journal) (ops : list RegistryOp) :
  JournalRegistry.wf (runOps initial ops).
Proof.
  unfold runOps. generalize (JournalRegistry_new_wf initial).
  generalize (JournalRegistry.new initial). induction ops as [|op ops IH]; simpl; [done|].
  intros r Hr. by apply IH, applyOp_wf.
Qed.

Lemma list_remove_filter (r : JournalRegistry.t) (id : string) :
  JournalRegistry.wf r ->
  JournalRegistry.list (snd (JournalRegistry.remove id r))
  = List.filter (fun j => negb (String.eqb (journal_id j) id)) (JournalRegistry.list r).
Proof.
  intros [Hnd Hid]. unfold JournalRegistry.remove, JournalRegistry.list, JsMap.values.
  pose proof (JsMap_delete_filter (JournalRegistry.journals r) id Hnd) as Hf.
  destruct (JsMap.delete id (JournalRegistry.journals r)) as [b m]. simpl in *.
  subst m. clear Hnd.
  induction Hid as [|[k v] m Hkv _ IH]; simpl; [done|]. simpl in Hkv. subst k.
  destruct (String.eqb (journal_id v) id); simpl; by rewrite IH.
Qed.

Lemma list_register_fresh (r : JournalRegistry.t) (J : Journal) :
  JournalRegistry.get (journal_id J) r = None ->
  JournalRegistry.list (JournalRegistry.register J r) = JournalRegistry.list r ++ [J].
Proof.
  intros Hnone. apply JsMap_get_None in Hnone.
  unfold JournalRegistry.list, JournalRegistry.register, JsMap.values. simpl.
  by rewrite (JsMap_set_fresh _ _ _ Hnone), map_app.
Qed.

End MoreRegistryFacts.

(** X1.  [register] of a journal whose id the registry does not hold
    puts it last in [list ()], after the journals already there. *)
Theorem register_fresh_goes_last (r : JournalRegistry.t) (J : Journal) :
  JournalRegistry.get (journal_id J) r = None ->
  JournalRegistry.list (JournalRegistry.register J r) = JournalRegistry.list r ++ [J].
Proof. apply list_register_fresh. Qed.

Lemma register_fresh_goes_last_witness :
  JournalRegistry.list (JournalRegistry.register science (JournalRegistry.new [nature]))
  = JournalRegistry.list (JournalRegistry.new [nature]) ++ [science].
Proof. apply register_fresh_goes_last. reflexivity. Defined.

(** X2.  [register] and [remove] of one id leave what [get] answers for
    every other id as it was. *)
Theorem other_ids_untouched (r : JournalRegistry.t) (J : Journal) (id : string) :
  id <> journal_id J ->
  JournalRegistry.get id (JournalRegistry.register J r) = JournalRegistry.get id r
  /\ JournalRegistry.get id (snd (JournalRegistry.remove (journal_id J) r))
     = JournalRegistry.get id r.
Proof.
  intros Hne. split.
  - unfold JournalRegistry.get, JournalRegistry.register. simpl.
    rewrite JsMap_get_set. by destruct (String.eqb_spec (journal_id J) id).
  - unfold JournalRegistry.get, JournalRegistry.remove.
    pose proof (JsMap_get_delete_ne (JournalRegistry.journals r) (journal_id J) id Hne) as H.
    by destruct (JsMap.delete _ _).
Qed.

Lemma other_ids_untouched_witness :
  JournalRegistry.get "science"
    (JournalRegistry.register natureUpdated (JournalRegistry.new [nature; science]))
  = JournalRegistry.get "science" (JournalRegistry.new [nature; science]).
Proof.
  apply (other_ids_untouched (JournalRegistry.new [nature; science]) natureUpdated "science").
  discriminate.
Defined.

(** X3.  [remove] answers true exactly when [get] finds the id.  On an
    id that is not held it changes nothing; on one that is held, [list ()]
    gets shorter by one. *)
Theorem remove_reports_presence (r : JournalRegistry.t) (id : string) :
  match JournalRegistry.get id r with
  | Some _ =>
      fst (JournalRegistry.remove id r) = true
      /\ S (length (JournalRegistry.list (snd (JournalRegistry.remove id r))))
         = length (JournalRegistry.list r)
  | None => JournalRegistry.remove id r = (false, r)
  end.
Proof.
  unfold JournalRegistry.get, JournalRegistry.remove, JournalRegistry.list, JsMap.values.
  destruct (JsMap.get id (JournalRegistry.journals r)) as [j|] eqn:E.
  - pose proof (JsMap_delete_present _ _ _ E) as Hb.
    pose proof (JsMap_delete_length _ _ _ E) as Hl.
    destruct (JsMap.delete id (JournalRegistry.journals r)) as [b m]. simpl in *.
    by rewrite !length_map.
  - rewrite (JsMap_delete_absent _ _ E). by destruct r.
Qed.

(** X4.  In a registry with unique ids, [remove id] takes the journal
    with that id out of [list ()] and leaves the others in their order. *)
Theorem remove_keeps_order (r : JournalRegistry.t) (id : string) :
  JournalRegistry.wf r ->
  JournalRegistry.list (snd (JournalRegistry.remove id r))
  = List.filter (fun j => negb (String.eqb (journal_id j) id)) (JournalRegistry.list r).
Proof. apply list_remove_filter. Qed.

Lemma remove_keeps_order_witness :
  JournalRegistry.list (snd (JournalRegistry.remove "nature" (JournalRegistry.new [nature; science])))
  = [science].
Proof.
  apply (remove_keeps_order (JournalRegistry.new [nature; science]) "nature").
  split; apply (bool_decide_unpack _); by vm_compute.
Defined.

(** X5.  Whatever list a registry is built from and whatever calls of
    [register] and [remove] follow, [list ()] never shows an id twice, and
    [get id] gives a journal exactly when [list ()] holds it and [id] is its
    id. *)
Theorem registry_history_invariant (initial : list Journal) (ops : list RegistryOp) :
  let r := runOps initial ops in
  NoDup (map journal_id (JournalRegistry.list r))
  /\ forall id j,
       JournalRegistry.get id r = Some j
       <-> j ∈ JournalRegistry.list r /\ journal_id j = id.
Proof.
  intros r. pose proof (runOps_wf initial ops) as Hwf. fold r in Hwf.
  split.
  - rewrite (JournalRegistry_list_ids _ Hwf). apply Hwf.
  - intros id j. destruct Hwf as [Hnd Hid]. unfold JournalRegistry.get.
    rewrite (JsMap_get_Some_iff _ _ _ Hnd). unfold JournalRegistry.list, JsMap.values.
    rewrite Forall_forall in Hid. rewrite list_elem_of_In, in_map_iff. split.
    + intros Hin. split; [by exists (id, j)|].
      symmetry. apply (Hid (id, j)). by apply list_elem_of_In.
    + intros [[[k v] [Hv Hin]] Hj]. simpl in Hv. subst v.
      pose proof (Hid (k, j) (proj2 (list_elem_of_In _ _) Hin)) as Hk. simpl in Hk.
      by rewrite <- Hj, <- Hk.
Qed.

(** X6.  [hasAny] is false exactly when [get] finds nothing for every
    id; it is true after any [register], and for a registry fresh from its
    constructor exactly when the initial list has a journal. *)
Theorem hasAny_meaning (r : JournalRegistry.t) (J : Journal) (initial : list Journal) :
  (JournalRegistry.hasAny r = false <-> forall id, JournalRegistry.get id r = None)
  /\ JournalRegistry.hasAny (JournalRegistry.register J r) = true
  /\ JournalRegistry.hasAny (JournalRegistry.new initial)
     = match initial with [] => false | _ :: _ => true end.
Proof.
  assert (Hreg : forall r0 j, JournalRegistry.hasAny (JournalRegistry.register j r0) = true).
  { intros [m] j. unfold JournalRegistry.hasAny, JournalRegistry.register, JsMap.size. simpl.
    destruct m as [|[k v] m]; simpl; [done|]. by destruct (String.eqb k (journal_id j)). }
  split; [|split; [apply Hreg|]].
  - unfold JournalRegistry.hasAny, JournalRegistry.get, JsMap.size.
    destruct (JournalRegistry.journals r) as [|[k v] m]; simpl; [done|].
    split; [done|]. intros H. specialize (H k). by rewrite String.eqb_refl in H.
  - destruct initial as [|j initial]; [done|].
    destruct (exists_last (l := j :: initial)) as [init' [j' ->]]; [done|].
    rewrite JournalRegistry_new_snoc. apply Hreg.
Qed.

(** X7.  In a registry with unique ids, removing an id and registering
    it again moves the journal to the end of [list ()]; this is how an
    entry changes place, which a plain [register] never does. *)
Theorem remove_then_register_moves_last (r : JournalRegistry.t) (J : Journal) :
  JournalRegistry.wf r ->
  JournalRegistry.list
    (JournalRegistry.register J (snd (JournalRegistry.remove (journal_id J) r)))
  = List.filter (fun j => negb (String.eqb (journal_id j) (journal_id J)))
      (JournalRegistry.list r) ++ [J].
Proof.
  intros Hwf. rewrite list_register_fresh.
  - by rewrite list_remove_filter.
  - destruct Hwf as [Hnd _]. unfold JournalRegistry.get, JournalRegistry.remove.
    pose proof (JsMap_get_delete (JournalRegistry.journals r) (journal_id J) Hnd) as H.
    by destruct (JsMap.delete _ _).
Qed.

Lemma remove_then_register_moves_last_witness :
  JournalRegistry.list
    (JournalRegistry.register natureUpdated
       (snd (JournalRegistry.remove "nature" (JournalRegistry.new [nature; science]))))
  = [science; natureUpdated].
Proof.
  apply (remove_then_register_moves_last (JournalRegistry.new [nature; science]) natureUpdated).
  split; apply (bool_decide_unpack _); by vm_compute.
Defined.

(** X8.  Of two [register] calls in a row for one id the second wins:
    the registry is the one the second call alone would give. *)
Theorem register_last_write_wins (r : JournalRegistry.t) (J1 J2 : Journal) :
  journal_id J1 = journal_id J2 ->
  JournalRegistry.register J2 (JournalRegistry.register J1 r)
  = JournalRegistry.register J2 r.
Proof.
  intros Hid. unfold JournalRegistry.register. simpl. f_equal.
  rewrite Hid. apply JsMap_set_set.
Qed.

Lemma register_last_write_wins_witness :
  JournalRegistry.register natureUpdated
    (JournalRegistry.register nature (JournalRegistry.new [science]))
  = JournalRegistry.register natureUpdated (JournalRegistry.new [science]).
Proof. apply register_last_write_wins. reflexivity. Defined.

(** ** KeywordScanner, the rest of its behaviour *)

Section MoreStringFacts.
Import JsString.

Lemma string_app_assoc (s t u : string) : (s +:+ t) +:+ u = s +:+ t +:+ u.
Proof. induction s as [|a s IH]; [done|]. exact (f_equal (String a) IH). Qed.

Lemma substring_of_app_l (needle x y : string) :
  substring_of needle x -> substring_of needle (x +:+ y).
Proof.
  intros [pre [post ->]]. exists pre, (post +:+ y).
  by rewrite !string_app_assoc.
Qed.

Lemma substring_of_app_r (needle x y : string) :
  substring_of needle y -> substring_of needle (x +:+ y).
Proof.
  intros [pre [post ->]]. exists (x +:+ pre), post.
  by rewrite !string_app_assoc.
Qed.

(** A needle without the unit [c] that starts a text [x c y] ends
    before the [c]. *)
Lemma prefix_before_unit (c : ascii) (needle post x y : string) :
  ~ hasUnit c needle ->
  needle +:+ post = x +:+ String c y ->
  exists rest, x = needle +:+ rest.
Proof.
  revert x. induction needle as [|a needle IH]; intros x Hno Heq.
  - by exists x.
  - simpl in Hno. destruct x as [|b x].
    + change (String a (needle +:+ post) = String c y) in Heq.
      injection Heq as -> _. tauto.
    + change (String a (needle +:+ post) = String b (x +:+ String c y)) in Heq.
      injection Heq as -> Heq. destruct (IH x) as [rest ->]; [tauto | done |].
      by exists rest.
Qed.

(** A needle without the unit [c] found in [x c y] lies in [x] or in [y]. *)
Lemma substring_of_split (c : ascii) (needle x y : string) :
  ~ hasUnit c needle ->
  substring_of needle (x +:+ String c y) ->
  substring_of needle x \/ substring_of needle y.
Proof.
  intros Hno [pre [post Heq]]. symmetry in Heq. revert pre Heq.
  induction x as [|b x IH]; intros pre Heq.
  - destruct pre as [|p pre].
    + change (needle +:+ post = String c y) in Heq.
      destruct needle as [|a needle].
      * left. by exists "", "".
      * change (String a (needle +:+ post) = String c y) in Heq.
        injection Heq as -> _. simpl in Hno. tauto.
    + change (String p (pre +:+ needle +:+ post) = String c y) in Heq.
      injection Heq as _ <-. right. by exists pre, post.
  - destruct pre as [|p pre].
    + change (needle +:+ post = String b x +:+ String c y) in Heq.
      destruct (prefix_before_unit c needle post (String b x) y Hno Heq) as [rest ->].
      left. by exists "", rest.
    + change (String p (pre +:+ needle +:+ post) = String b (x +:+ String c y)) in Heq.
      injection Heq as _ Heq.
      destruct (IH pre Heq) as [[pre' [post' ->]] | Hy]; [|by right].
      left. by exists (String b pre'), post'.
Qed.

End MoreStringFacts.

(** The lower-casing of the letters A to Z, the one the stubs run on,
    has what the theorems below ask of the built-in. *)
Section AsciiLowerCaseFacts.
Import JsString.

Lemma asciiLowerCase_app (s t : string) :
  asciiLowerCase (s +:+ t) = asciiLowerCase s +:+ asciiLowerCase t.
Proof.
  induction s as [|a s IH]; [done|]. exact (f_equal (String (asciiLowerUnit a)) IH).
Qed.

Lemma asciiLowerCase_splits_at_spaces (s t : string) :
  asciiLowerCase (s +:+ " " +:+ t) = asciiLowerCase s +:+ " " +:+ asciiLowerCase t.
Proof. by rewrite asciiLowerCase_app. Qed.

Lemma asciiLowerUnit_keeps (d : ascii) :
  asciiLowerUnit d = d -> (forall c, asciiLowerUnit c = d -> c = d) ->
  forall s, hasUnit d (asciiLowerCase s) <-> hasUnit d s.
Proof.
  intros Hd Hinv s. induction s as [|a s IH]; simpl; [done|]. rewrite IH.
  split; (intros [H|H]; [left | by right]); [by apply Hinv | by subst].
Qed.

Lemma asciiLowerCase_space (s : string) :
  hasUnit " " (asciiLowerCase s) <-> hasUnit " " s.
Proof.
  apply asciiLowerUnit_keeps; [done|].
  intros c. destruct c as [[] [] [] [] [] [] [] []]; vm_compute; congruence.
Qed.

Lemma asciiLowerCase_dot (s : string) :
  hasUnit "." (asciiLowerCase s) <-> hasUnit "." s.
Proof.
  apply asciiLowerUnit_keeps; [done|].
  intros c. destruct c as [[] [] [] [] [] [] [] []]; vm_compute; congruence.
Qed.

Lemma asciiLowerCase_keeps_extension_shape (rest : string) :
  rest <> "" -> ~ hasUnit "." rest ->
  exists r, asciiLowerCase (String "." rest) = String "." r
            /\ r <> "" /\ ~ hasUnit "." r.
Proof.
  intros Hr Hno. exists (asciiLowerCase rest). split; [done|]. split.
  - by destruct rest.
  - by rewrite asciiLowerCase_dot.
Qed.

End AsciiLowerCaseFacts.

Section MoreScannerFacts.
Context {toLowerCase : string -> string}.
Import JsString.

(** The text [isCandidate] searches, field by field, under a
    lower-casing that goes through a text part by part at its spaces. *)
Lemma haystack_fields (a : Article) :
  (forall s t, toLowerCase (s +:+ " " +:+ t)
               = toLowerCase s +:+ " " +:+ toLowerCase t) ->
  KeywordScanner.haystack toLowerCase a
  = toLowerCase (title a) +:+ " " +:+ toLowerCase (abstract a) +:+ " "
    +:+ toLowerCase (fullText a).
Proof.
  intros Hsplit. unfold KeywordScanner.haystack. by rewrite !Hsplit.
Qed.

Lemma isCandidate_true_iff (this : KeywordScanner.t) (a : Article) :
  KeywordScanner.isCandidate toLowerCase this a = true <->
  exists kw, kw ∈ KeywordScanner.keywords this /\
    substring_of (toLowerCase kw) (KeywordScanner.haystack toLowerCase a).
Proof.
  unfold KeywordScanner.isCandidate.
  destruct (KeywordScanner.keywords this) as [|k K].
  - simpl. split; [done | intros [kw [Hin _]]; by apply elem_of_nil in Hin].
  - change (length (k :: K) =? 0)%nat with false. cbv iota.
    rewrite existsb_exists. split.
    + intros [kw [Hin Hinc]]. exists kw. split.
      * by apply list_elem_of_In.
      * by apply includes_spec.
    + intros [kw [Hin Hsub]]. exists kw. split.
      * by apply list_elem_of_In.
      * by apply includes_spec.
Qed.

Lemma isCandidate_lowered (this : KeywordScanner.t) (a : Article) :
  KeywordScanner.isCandidate toLowerCase this a
  = existsb (fun kw => includes (KeywordScanner.haystack toLowerCase a) kw)
      (map toLowerCase (KeywordScanner.keywords this)).
Proof.
  unfold KeywordScanner.isCandidate.
  destruct (KeywordScanner.keywords this) as [|k K]; [done|].
  change (length (k :: K) =? 0)%nat with false. cbv iota.
  generalize (k :: K). intros l. induction l as [|x l IH]; simpl; [done|].
  by rewrite IH.
Qed.

End MoreScannerFacts.

(** X9.  Whatever the built-in lower-casing does, [filterCandidates]
    hands back the articles whose lower-cased "title abstract fullText"
    has the lower-casing of a keyword as a substring, and no others, in
    the order and number they came in. *)
Theorem filterCandidates_keeps_matching (toLowerCase : string -> string)
    (this : KeywordScanner.t) (articles : list Article) :
  keeps (fun a => exists kw, kw ∈ KeywordScanner.keywords this /\
           JsString.substring_of (toLowerCase kw)
             (toLowerCase
                (title a +:+ " " +:+ abstract a +:+ " " +:+ fullText a)))
        articles (KeywordScanner.filterCandidates toLowerCase this articles).
Proof.
  unfold KeywordScanner.filterCandidates.
  induction articles as [|a articles IH]; simpl; [constructor|].
  destruct (KeywordScanner.isCandidate toLowerCase this a) eqn:Ha.
  - apply keeps_take; [|done]. by apply isCandidate_true_iff.
  - apply keeps_skip; [|done]. intros H. apply isCandidate_true_iff in H. congruence.
Qed.

(** X10.  A scanner that has every keyword of another finds every
    candidate the other finds: what the smaller list filters out of some
    articles is a sublist of what the larger list does. *)
Theorem more_keywords_more_candidates (toLowerCase : string -> string)
    (small large : KeywordScanner.t) (articles : list Article) :
  (forall kw, kw ∈ KeywordScanner.keywords small -> kw ∈ KeywordScanner.keywords large) ->
  (forall a, KeywordScanner.isCandidate toLowerCase small a = true ->
             KeywordScanner.isCandidate toLowerCase large a = true)
  /\ sublist (KeywordScanner.filterCandidates toLowerCase small articles)
             (KeywordScanner.filterCandidates toLowerCase large articles).
Proof.
  intros Hsub.
  assert (Hmono : forall a, KeywordScanner.isCandidate toLowerCase small a = true ->
                            KeywordScanner.isCandidate toLowerCase large a = true).
  { intros a Ha. apply isCandidate_true_iff in Ha as [kw [Hin Hs]].
    apply isCandidate_true_iff. exists kw. split; [by apply Hsub | done]. }
  split; [done|]. unfold KeywordScanner.filterCandidates.
  induction articles as [|a articles IH]; simpl; [constructor|].
  destruct (KeywordScanner.isCandidate toLowerCase small a) eqn:Ha.
  - rewrite (Hmono a Ha). by constructor.
  - destruct (KeywordScanner.isCandidate toLowerCase large a); [by constructor | done].
Qed.

Lemma more_keywords_more_candidates_witness :
  sublist
    (KeywordScanner.filterCandidates asciiLowerCase (KeywordScanner.new ["github"])
       [makeArticle "n1" "Source code available on GitHub"])
    (KeywordScanner.filterCandidates asciiLowerCase scenarioScanner
       [makeArticle "n1" "Source code available on GitHub"]).
Proof.
  apply (more_keywords_more_candidates asciiLowerCase
           (KeywordScanner.new ["github"]) scenarioScanner).
  simpl. intros kw Hin. apply list_elem_of_In in Hin. apply list_elem_of_In.
  simpl in *. tauto.
Defined.

(** X11.  Only the lower-casings count.  The built-in goes through a
    text part by part at its spaces (a space is no letter, and no letter
    looks across it); under any lower-casing that does, two scanners whose
    keywords are the same once lower-cased give the same answer on two
    articles whose three text fields are the same once lower-cased. *)
Theorem isCandidate_ignores_case (toLowerCase : string -> string)
    (s1 s2 : KeywordScanner.t) (a b : Article) :
  (forall s t, toLowerCase (s +:+ " " +:+ t)
               = toLowerCase s +:+ " " +:+ toLowerCase t) ->
  map toLowerCase (KeywordScanner.keywords s1)
    = map toLowerCase (KeywordScanner.keywords s2) ->
  toLowerCase (title a) = toLowerCase (title b) ->
  toLowerCase (abstract a) = toLowerCase (abstract b) ->
  toLowerCase (fullText a) = toLowerCase (fullText b) ->
  KeywordScanner.isCandidate toLowerCase s1 a
  = KeywordScanner.isCandidate toLowerCase s2 b.
Proof.
  intros Hsplit HK Ht Ha Hf. rewrite !isCandidate_lowered, !haystack_fields by done.
  by rewrite HK, Ht, Ha, Hf.
Qed.

Lemma isCandidate_ignores_case_witness :
  KeywordScanner.isCandidate asciiLowerCase (KeywordScanner.new ["CODE"; "GitHub"])
    (makeArticle "n1" "SOURCE CODE AVAILABLE")
  = KeywordScanner.isCandidate asciiLowerCase (KeywordScanner.new ["code"; "github"])
      (makeArticle "n1" "source code available").
Proof.
  apply (isCandidate_ignores_case asciiLowerCase);
    [exact asciiLowerCase_splits_at_spaces | reflexivity ..].
Defined.

(** X12.  Under a lower-casing that goes through a text part by part at
    its spaces, as the built-in does, a keyword found, case apart, in the
    title alone, in the abstract alone or in the full text alone makes the
    article a candidate. *)
Theorem isCandidate_one_field_suffices (toLowerCase : string -> string)
    (this : KeywordScanner.t) (a : Article) (kw : string) :
  (forall s t, toLowerCase (s +:+ " " +:+ t)
               = toLowerCase s +:+ " " +:+ toLowerCase t) ->
  kw ∈ KeywordScanner.keywords this ->
  JsString.substring_of (toLowerCase kw) (toLowerCase (title a))
  \/ JsString.substring_of (toLowerCase kw) (toLowerCase (abstract a))
  \/ JsString.substring_of (toLowerCase kw) (toLowerCase (fullText a)) ->
  KeywordScanner.isCandidate toLowerCase this a = true.
Proof.
  intros Hsplit Hin Hfield. apply isCandidate_true_iff. exists kw. split; [done|].
  rewrite haystack_fields by done. destruct Hfield as [H | [H | H]].
  - by apply substring_of_app_l.
  - apply substring_of_app_r, (substring_of_app_r _ " "). by apply substring_of_app_l.
  - by do 4 apply substring_of_app_r.
Qed.

Lemma isCandidate_one_field_suffices_witness :
  KeywordScanner.isCandidate asciiLowerCase scenarioScanner
    {| article_id := "art-1"; title := "A Study of Things"; abstract := "";
       fullText := "See GitHub"; supplementaryUrl := "" |} = true.
Proof.
  apply (isCandidate_one_field_suffices asciiLowerCase scenarioScanner _ "github").
  - exact asciiLowerCase_splits_at_spaces.
  - simpl. apply list_elem_of_In. simpl. tauto.
  - right. right. by exists "see ", "".
Defined.

(** X13.  A keyword without a space never matches across two fields.
    Under a lower-casing that goes through a text part by part at its
    spaces and makes no space of its own, as the built-in does: if no
    keyword has a space and the article is a candidate, some keyword is
    found, case apart, inside the title, inside the abstract or inside
    the full text. *)
Theorem isCandidate_match_within_a_field (toLowerCase : string -> string)
    (this : KeywordScanner.t) (a : Article) :
  (forall s t, toLowerCase (s +:+ " " +:+ t)
               = toLowerCase s +:+ " " +:+ toLowerCase t) ->
  (forall s, JsString.hasUnit " " (toLowerCase s) -> JsString.hasUnit " " s) ->
  (forall kw, kw ∈ KeywordScanner.keywords this -> ~ JsString.hasUnit " " kw) ->
  KeywordScanner.isCandidate toLowerCase this a = true ->
  exists kw, kw ∈ KeywordScanner.keywords this /\
    (JsString.substring_of (toLowerCase kw) (toLowerCase (title a))
     \/ JsString.substring_of (toLowerCase kw) (toLowerCase (abstract a))
     \/ JsString.substring_of (toLowerCase kw) (toLowerCase (fullText a))).
Proof.
  intros Hsplit Hspace Hnospace Hc.
  apply isCandidate_true_iff in Hc as [kw [Hin Hsub]].
  exists kw. split; [done|]. rewrite haystack_fields in Hsub by done.
  assert (Hno : ~ JsString.hasUnit " " (toLowerCase kw)).
  { intros H. by apply (Hnospace kw Hin), Hspace. }
  apply (substring_of_split " " _ _ _ Hno) in Hsub as [H | Hsub]; [by left|].
  apply (substring_of_split " " _ _ _ Hno) in Hsub as [H | H]; tauto.
Qed.

Lemma isCandidate_match_within_a_field_witness :
  exists kw, kw ∈ KeywordScanner.keywords scenarioScanner /\
    (JsString.substring_of (asciiLowerCase kw)
       (asciiLowerCase (title (makeArticle "n1" "Source code available on GitHub")))
     \/ JsString.substring_of (asciiLowerCase kw)
          (asciiLowerCase (abstract (makeArticle "n1" "Source code available on GitHub")))
     \/ JsString.substring_of (asciiLowerCase kw)
          (asciiLowerCase (fullText (makeArticle "n1" "Source code available on GitHub")))).
Proof.
  apply (isCandidate_match_within_a_field asciiLowerCase scenarioScanner
           (makeArticle "n1" "Source code available on GitHub")).
  - exact asciiLowerCase_splits_at_spaces.
  - intros s. apply asciiLowerCase_space.
  - simpl. intros kw Hin. apply list_elem_of_In in Hin. simpl in Hin.
    destruct Hin as [<-|[<-|[<-|[]]]]; vm_compute; intuition discriminate.
  - reflexivity.
Defined.

Example isCandidate_space_keyword_spans_fields :
  KeywordScanner.isCandidate asciiLowerCase (KeywordScanner.new ["data code"])
    {| article_id := "art-1"; title := "Open data"; abstract := "Code on request";
       fullText := ""; supplementaryUrl := "" |} = true.
Proof. reflexivity. Qed.

(** ** CodeFileIdentifier, the rest of its behaviour *)

Section MoreExtensionFacts.
Context {toLowerCase : string -> string}.
Import JsString.

Lemma isCodeFile_iff_eq (this this' : CodeFileIdentifier.t) (E E' : list string)
    (filename : string) :
  CodeFileIdentifier.extensions this = list_to_set (toLowerCase <$> E) ->
  CodeFileIdentifier.extensions this' = list_to_set (toLowerCase <$> E') ->
  (recognisedExtension toLowerCase E filename
   <-> recognisedExtension toLowerCase E' filename) ->
  CodeFileIdentifier.isCodeFile toLowerCase this filename
  = CodeFileIdentifier.isCodeFile toLowerCase this' filename.
Proof.
  intros HE HE' Hiff.
  pose proof (isCodeFile_recognised this E filename HE) as H1.
  pose proof (isCodeFile_recognised this' E' filename HE') as H2.
  destruct (CodeFileIdentifier.isCodeFile toLowerCase this filename);
    destruct (CodeFileIdentifier.isCodeFile toLowerCase this' filename); try done.
  - symmetry. apply H2, Hiff, H1. done.
  - apply H1, Hiff, H2. done.
Qed.

End MoreExtensionFacts.

(** X14.  [isCodeFile] looks at the lower-casing of the extension and
    at nothing else: two names with non-empty stems whose non-empty,
    dot-free endings after the last dot are, with the dot, the same once
    lower-cased get the same answer, whatever the built-in lower-casing
    does and whatever the case of the stems. *)
Theorem isCodeFile_ignores_extension_case (toLowerCase : string -> string)
    (this : CodeFileIdentifier.t) (stem stem' rest rest' : string) :
  stem <> "" -> stem' <> "" -> rest <> "" -> rest' <> "" ->
  ~ JsString.hasUnit "." rest -> ~ JsString.hasUnit "." rest' ->
  toLowerCase (String "." rest) = toLowerCase (String "." rest') ->
  CodeFileIdentifier.isCodeFile toLowerCase this (stem +:+ String "." rest)
  = CodeFileIdentifier.isCodeFile toLowerCase this (stem' +:+ String "." rest').
Proof.
  intros Hs Hs' Hr Hr' Hno Hno' Hsame. rewrite !isCodeFile_split by done.
  destruct stem, stem', rest, rest'; try done. by rewrite Hsame.
Qed.

Lemma isCodeFile_ignores_extension_case_witness :
  CodeFileIdentifier.isCodeFile asciiLowerCase
    (CodeFileIdentifier.new asciiLowerCase None) "Analysis.PY"
  = CodeFileIdentifier.isCodeFile asciiLowerCase
      (CodeFileIdentifier.new asciiLowerCase None) "model.py".
Proof.
  apply (isCodeFile_ignores_extension_case asciiLowerCase
           (CodeFileIdentifier.new asciiLowerCase None) "Analysis" "model" "PY" "py");
    try done.
  - simpl. intros [H|[H|[]]]; discriminate H.
  - simpl. intros [H|[H|[]]]; discriminate H.
Defined.

(** X16.  Only what follows the last dot counts: two names with
    non-empty stems and the same dot-free ending after their last dot get
    the same answer, whatever dots the stems have. *)
Theorem isCodeFile_last_suffix_only (toLowerCase : string -> string)
    (this : CodeFileIdentifier.t) (stem stem' rest : string) :
  stem <> "" -> stem' <> "" -> ~ JsString.hasUnit "." rest ->
  CodeFileIdentifier.isCodeFile toLowerCase this (stem +:+ String "." rest)
  = CodeFileIdentifier.isCodeFile toLowerCase this (stem' +:+ String "." rest).
Proof.
  intros Hs Hs' Hno. rewrite !isCodeFile_split by done.
  by destruct stem, stem'.
Qed.

Lemma isCodeFile_last_suffix_only_witness :
  CodeFileIdentifier.isCodeFile asciiLowerCase
    (CodeFileIdentifier.new asciiLowerCase None) "archive.tar.r"
  = CodeFileIdentifier.isCodeFile asciiLowerCase
      (CodeFileIdentifier.new asciiLowerCase None) "model.r".
Proof.
  apply (isCodeFile_last_suffix_only asciiLowerCase
           (CodeFileIdentifier.new asciiLowerCase None)
           "archive.tar" "model" "r"); [done | done |].
  simpl. intros [H|[]]. discriminate H.
Defined.

(** X17.  The built-in lower-casing keeps the shape of an extension: a
    dot followed by a non-empty text without a dot stays one.  Under any
    lower-casing that does, an extension that is not, lower-cased, of
    that shape (no leading dot as in "py", an inner dot as in ".tar.gz",
    the bare ".", the empty string) never matches: the identifier answers
    as if the entry were not in the list. *)
Theorem malformed_extension_is_dead (toLowerCase : string -> string)
    (e : string) (E : list string) (filename : string) :
  (forall rest, rest <> "" -> ~ JsString.hasUnit "." rest ->
     exists r, toLowerCase (String "." rest) = String "." r
               /\ r <> "" /\ ~ JsString.hasUnit "." r) ->
  ~ (exists rest, toLowerCase e = String "." rest
                  /\ rest <> "" /\ ~ JsString.hasUnit "." rest) ->
  CodeFileIdentifier.isCodeFile toLowerCase
    (CodeFileIdentifier.new toLowerCase (Some (e :: E))) filename
  = CodeFileIdentifier.isCodeFile toLowerCase
      (CodeFileIdentifier.new toLowerCase (Some E)) filename.
Proof.
  intros Hshape Hbad. apply (isCodeFile_iff_eq _ _ (e :: E) E); [done | done |].
  unfold recognisedExtension. split.
  - intros [stem [rest [Hf [Hno [Hs [Hr [e' [Hin He]]]]]]]].
    exists stem, rest. repeat split; try done. exists e'. split; [|done].
    apply elem_of_cons in Hin as [->|Hin]; [|done]. destruct Hbad.
    destruct (Hshape rest Hr Hno) as [r [Hlow Hr']].
    exists r. by rewrite <- He.
  - intros [stem [rest [Hf [Hno [Hs [Hr [e' [Hin He]]]]]]]].
    exists stem, rest. repeat split; try done. exists e'. split; [by right | done].
Qed.

Lemma malformed_extension_is_dead_witness :
  CodeFileIdentifier.isCodeFile asciiLowerCase
    (CodeFileIdentifier.new asciiLowerCase (Some ["py"; ".r"])) "analysis.py"
  = CodeFileIdentifier.isCodeFile asciiLowerCase
      (CodeFileIdentifier.new asciiLowerCase (Some [".r"])) "analysis.py".
Proof.
  apply (malformed_extension_is_dead asciiLowerCase "py" [".r"] "analysis.py").
  - exact asciiLowerCase_keeps_extension_shape.
  - intros [rest [H _]]. discriminate H.
Defined.

(** X18.  No entry of the default list is dead: with the default
    extensions, a name made of a non-empty stem and one of them is a code
    file, whatever the built-in lower-casing does. *)
Theorem default_extensions_all_live (toLowerCase : string -> string)
    (stem e : string) :
  stem <> "" -> e ∈ DEFAULT_CODE_EXTENSIONS ->
  CodeFileIdentifier.isCodeFile toLowerCase
    (CodeFileIdentifier.new toLowerCase None) (stem +:+ e) = true.
Proof.
  intros Hs Hin. destruct stem as [|a stem]; [done|].
  assert (Hlive : toLowerCase e
            ∈ CodeFileIdentifier.extensions (CodeFileIdentifier.new toLowerCase None)).
  { change (toLowerCase e
            ∈ (list_to_set (toLowerCase <$> DEFAULT_CODE_EXTENSIONS) : gset string)).
    apply elem_of_list_to_set, list_elem_of_fmap. by exists e. }
  unfold DEFAULT_CODE_EXTENSIONS in Hin. rewrite !elem_of_cons, elem_of_nil in Hin.
  repeat (destruct Hin as [->|Hin];
    [rewrite isCodeFile_split by (simpl; intuition discriminate);
     by apply bool_decide_eq_true |]).
  done.
Qed.

Lemma default_extensions_all_live_witness :
  CodeFileIdentifier.isCodeFile asciiLowerCase
    (CodeFileIdentifier.new asciiLowerCase None) "notebook.ipynb" = true.
Proof.
  apply (default_extensions_all_live asciiLowerCase "notebook" ".ipynb"); [done|].
  unfold DEFAULT_CODE_EXTENSIONS. rewrite !elem_of_cons. tauto.
Defined.

(** ** The orchestrators, the rest of their behaviour *)

Section MoreEffectFacts.
Context {Reason World : Type}.
Import Async.

Lemma all_fulfilled_instant {A : Type} (ps : list (Promise Reason A)) (vs : list A) :
  outcome (all ps) = Fulfilled vs ->
  forall p, p ∈ ps -> settledAt p <= settledAt (all ps).
Proof.
  unfold all. destruct (firstRejection ps) as [[t e]|]; simpl; [done|].
  intros _ p Hin.
  assert (Hle : Forall (fun k => k <= list_max (map settledAt ps)) (map settledAt ps))
    by by apply list_max_le.
  rewrite Forall_forall in Hle. apply Hle, list_elem_of_In, in_map.
  by apply list_elem_of_In.
Qed.

(** The loop over [l1 ++ l2] when no call for [l1] throws. *)
Lemma mapArrayOrThrow_app {Args A : Type}
    (f : Args -> Throws Reason World (Promise Reason A)) (l1 l2 : list Args)
    (w w1 : World) (ps : list (Promise Reason A)) :
  mapArrayOrThrow f l1 w = (Returned ps, w1) ->
  mapArrayOrThrow f (l1 ++ l2) w
  = match mapArrayOrThrow f l2 w1 with
    | (Returned qs, w2) => (Returned (ps ++ qs), w2)
    | (Thrown e, w2) => (Thrown e, w2)
    end
  /\ callsOf f (l1 ++ l2) w = combine l1 ps ++ callsOf f l2 w1.
Proof.
  revert w ps. induction l1 as [|x l1 IH]; intros w ps; simpl.
  - intros [= <- <-]. split; [|done].
    by destruct (mapArrayOrThrow f l2 w) as [[qs|e] w2].
  - destruct (f x w) as [[p|e] w0]; [|done].
    destruct (mapArrayOrThrow f l1 w0) as [[ps0|e] w0'] eqn:Hl1; [|done].
    intros [= <- <-]. destruct (IH w0 ps0 Hl1) as [-> ->]. split; [|done].
    by destruct (mapArrayOrThrow f l2 w0') as [[qs|e] w2].
Qed.

End MoreEffectFacts.

Section MoreOrchestratorFacts.
Context {Reason World : Type}.
Variable Error : string -> Reason.
Variable numberToString : number -> string.
Variable toLowerCase : string -> string.
Import Async.

Lemma identifyCandidates_call_ids (registry : JournalRegistry.t)
    (scanner : KeywordScanner.t) (fetch : @FetchArticlesFn Reason World)
    (page : option number) (w : World) :
  map (fun call => fst (fst call))
      (snd (snd (identifyCandidates Error toLowerCase registry scanner
                   (spyFetch fetch) page (w, []))))
  = map journal_id (JournalRegistry.list registry).
Proof.
  destruct (JournalRegistry.hasAny registry) eqn:Hany.
  - assert (Hsome : JournalRegistry.list registry <> []).
    { intros Hnil. apply hasAny_list in Hnil. congruence. }
    destruct (identifyCandidates_run Error toLowerCase scanner registry fetch page w Hsome)
      as [Hcalls _].
    rewrite <- (map_map fst fst), Hcalls, map_map. done.
  - rewrite (identifyCandidates_refused _ _ _ _ _ _ _ _ Hany). simpl.
    apply hasAny_list in Hany. by rewrite Hany.
Qed.

(** X20.  With no candidates and a cap that passes (none given, or a
    positive integer), [downloadBundles] is fulfilled with the empty list;
    it calls nothing and leaves the world as it was. *)
Theorem downloadBundles_no_candidates
    (download : @DownloadBundleFn Reason World) (maxBundles : option number) (w : World) :
  maxBundles = None \/ (exists N, (0 < N)%Z /\ maxBundles = Some (JsNumber.ofZ N)) ->
  downloadBundles Error numberToString [] (spy download) maxBundles (w, [])
  = (mkPromise 0 (Fulfilled []), (w, [])).
Proof.
  intros Hcap.
  assert (Hpos : exists N, (0 < N)%Z /\
    downloadBundles Error numberToString [] (spy download) maxBundles (w, [])
    = downloadBundles Error numberToString [] (spy download)
        (Some (JsNumber.ofZ N)) (w, [])).
  { destruct Hcap as [-> | [N [HN ->]]]; [exists 10%Z | exists N]; split; done || lia. }
  destruct Hpos as [N [HN ->]].
  destruct (positive_integer_passes N HN) as [Hint Hlt].
  rewrite (downloadBundles_accepted _ _ _ _ _ _ Hint Hlt).
  rewrite Array_slice0_integer by lia. by rewrite take_nil.
Qed.

(** X21.  With a positive integer cap that is at least the number of
    candidates, a collaborator that never throws in the call is called
    for every candidate, in their order. *)
Theorem downloadBundles_cap_covers_all
    (C : list Article) (download : @DownloadBundleFn Reason World) (N : Z) (w : World) :
  (0 < N)%Z -> (Z.of_nat (length C) <= N)%Z -> neverThrows download ->
  map fst (snd (snd (downloadBundles Error numberToString C (spy download)
                       (Some (JsNumber.ofZ N)) (w, []))))
  = C.
Proof.
  intros HN Hall Hnever. destruct (positive_integer_passes N HN) as [Hint Hlt].
  rewrite (downloadBundles_accepted _ _ _ _ _ _ Hint Hlt).
  rewrite Array_slice0_integer by lia. cbn [fst snd].
  rewrite (take_ge C) by lia. by apply callsOf_neverThrows.
Qed.

(** X22.  Raising the cap only adds calls at the end: from the same
    world, the log under a cap is the beginning of the log under a larger
    cap, call for call and promise for promise. *)
Theorem downloadBundles_larger_cap_extends
    (C : list Article) (download : @DownloadBundleFn Reason World) (N M : Z) (w : World) :
  (0 < N)%Z -> (N <= M)%Z ->
  snd (snd (downloadBundles Error numberToString C (spy download)
              (Some (JsNumber.ofZ N)) (w, [])))
  `prefix_of`
  snd (snd (downloadBundles Error numberToString C (spy download)
              (Some (JsNumber.ofZ M)) (w, []))).
Proof.
  intros HN HM.
  destruct (positive_integer_passes N HN) as [HintN HltN].
  destruct (positive_integer_passes M ltac:(lia)) as [HintM HltM].
  rewrite (downloadBundles_accepted _ _ _ _ _ _ HintN HltN).
  rewrite (downloadBundles_accepted _ _ _ _ _ _ HintM HltM).
  rewrite !Array_slice0_integer by lia. cbn [fst snd].
  set (n := Z.to_nat (Z.min N (Z.of_nat (length C)))).
  set (m := Z.to_nat (Z.min M (Z.of_nat (length C)))).
  assert (Hnm : n <= m) by lia.
  assert (Hsplit : take m C = take n C ++ drop n (take m C)).
  { rewrite <- (take_drop n (take m C)) at 1. by rewrite take_take, Nat.min_l. }
  rewrite Hsplit. apply callsOf_app_prefix.
Qed.

(** X28.  A call of the collaborator that throws ends the loop of
    [downloadBundles]: when the calls for the candidates [before] hand
    back promises and the call for the next selected [article] throws
    [e], the result is rejected at once with [e], unchanged; the log ends
    with that call, the candidates [after] are never called, and the
    world is as the throwing call left it. *)
Theorem downloadBundles_throw_ends_the_loop
    (C : list Article) (download : @DownloadBundleFn Reason World) (N : Z)
    (before after : list Article) (article : Article)
    (ps : list (Promise Reason SupplementaryBundle)) (w w1 w2 : World) (e : Reason) :
  (0 < N)%Z ->
  take (Z.to_nat (Z.min N (Z.of_nat (length C)))) C = before ++ article :: after ->
  mapArrayOrThrow download before w = (Returned ps, w1) ->
  download article w1 = (Thrown e, w2) ->
  downloadBundles Error numberToString C (spy download) (Some (JsNumber.ofZ N)) (w, [])
  = (reject e, (w2, combine before ps ++ [(article, reject e)])).
Proof.
  intros HN Hbatch Hbefore Hthrow.
  destruct (positive_integer_passes N HN) as [Hint Hlt].
  rewrite (downloadBundles_accepted _ _ _ _ _ _ Hint Hlt).
  rewrite Array_slice0_integer by lia. rewrite Hbatch.
  destruct (mapArrayOrThrow_app download before (article :: after) w w1 ps Hbefore)
    as [-> ->].
  simpl. by rewrite Hthrow.
Qed.

(** X24.  A registry built from a list with repeated ids makes
    [identifyCandidates] fetch once per id, the ids in the order of their
    first occurrence. *)
Theorem identifyCandidates_fetches_distinct_ids
    (initial : list Journal) (scanner : KeywordScanner.t)
    (fetch : @FetchArticlesFn Reason World) (page : option number) (w : World) :
  map (fun call => fst (fst call))
      (snd (snd (identifyCandidates Error toLowerCase (JournalRegistry.new initial)
                   scanner (spyFetch fetch) page (w, []))))
  = firstOccurrences (map journal_id initial).
Proof.
  rewrite identifyCandidates_call_ids.
  rewrite JournalRegistry_list_ids by apply JournalRegistry_new_wf.
  apply JournalRegistry_new_keys.
Qed.

(** X25.  After [remove id] on a registry with unique ids,
    [identifyCandidates] fetches for the ids that were listed, without
    [id], in their order: a removed journal is not fetched. *)
Theorem identifyCandidates_skips_removed
    (registry : JournalRegistry.t) (id : string) (scanner : KeywordScanner.t)
    (fetch : @FetchArticlesFn Reason World) (page : option number) (w : World) :
  JournalRegistry.wf registry ->
  map (fun call => fst (fst call))
      (snd (snd (identifyCandidates Error toLowerCase
                   (snd (JournalRegistry.remove id registry))
                   scanner (spyFetch fetch) page (w, []))))
  = List.filter (fun i => negb (String.eqb i id))
      (map journal_id (JournalRegistry.list registry)).
Proof.
  intros Hwf. rewrite identifyCandidates_call_ids, list_remove_filter by done.
  induction (JournalRegistry.list registry) as [|j js IH]; simpl; [done|].
  destruct (String.eqb (journal_id j) id); simpl; by rewrite IH.
Qed.

(** X26.  [downloadBundles] with a positive integer cap settles when
    its calls allow: fulfilled, no earlier than any promise of a logged
    call; rejected, at the instant of a logged call that rejects with the
    same reason. *)
Theorem downloadBundles_settles_with_its_calls
    (C : list Article) (download : @DownloadBundleFn Reason World) (N : Z) (w : World) :
  (0 < N)%Z ->
  let run := downloadBundles Error numberToString C (spy download)
               (Some (JsNumber.ofZ N)) (w, []) in
  (forall bundles, outcome (fst run) = Fulfilled bundles ->
     forall call, call ∈ snd (snd run) -> settledAt (snd call) <= settledAt (fst run))
  /\ (forall e, outcome (fst run) = Rejected e ->
        exists call, call ∈ snd (snd run)
          /\ outcome (snd call) = Rejected e
          /\ settledAt (snd call) = settledAt (fst run)).
Proof.
  intros HN run. destruct (positive_integer_passes N HN) as [Hint Hlt].
  pose proof (downloadBundles_run Error numberToString C download
                (JsNumber.ofZ N) w Hint Hlt) as Hrun.
  cbn zeta in Hrun. fold run in Hrun.
  set (batch := Array_slice0 C (JsNumber.ofZ N)) in *.
  destruct Hrun as [_ [[ps [Hlen [-> ->]]]
                       | [e0 [pre [x [ps [_ [Hlen [-> ->]]]]]]]]].
  - split.
    + intros bundles Hok call Hin. apply (all_fulfilled_instant ps bundles Hok).
      rewrite <- (combine_snd batch ps Hlen).
      apply list_elem_of_In, in_map. by apply list_elem_of_In.
    + intros e Hrej. destruct (all_rejected _ _ Hrej) as [p [Hp [Hout [Ht _]]]].
      rewrite <- (combine_snd batch ps Hlen) in Hp.
      apply list_elem_of_In, in_map_iff in Hp as [call [<- Hin]].
      exists call. split; [by apply list_elem_of_In | done].
  - split; [done|]. intros e He. injection He as <-.
    exists (x, reject e0). split; [|done].
    apply elem_of_app. right. by apply list_elem_of_singleton.
Qed.

(** X27.  [identifyCandidates] on a registry with journals settles
    when its fetches allow: fulfilled, no earlier than any promise of a
    logged fetch; rejected, at the instant of a logged fetch that rejects
    with the same reason. *)
Theorem identifyCandidates_settles_with_its_calls
    (registry : JournalRegistry.t) (scanner : KeywordScanner.t)
    (fetch : @FetchArticlesFn Reason World) (page : option number) (w : World) :
  JournalRegistry.list registry <> [] ->
  let run := identifyCandidates Error toLowerCase registry scanner
               (spyFetch fetch) page (w, []) in
  (forall results, outcome (fst run) = Fulfilled results ->
     forall call, call ∈ snd (snd run) -> settledAt (snd call) <= settledAt (fst run))
  /\ (forall e, outcome (fst run) = Rejected e ->
        exists call, call ∈ snd (snd run)
          /\ outcome (snd call) = Rejected e
          /\ settledAt (snd call) = settledAt (fst run)).
Proof.
  intros Hsome run.
  assert (Hany : JournalRegistry.hasAny registry = true).
  { destruct (JournalRegistry.hasAny registry) eqn:E; [done|].
    by apply hasAny_list in E. }
  subst run. rewrite (identifyCandidates_accepted _ _ _ _ _ _ _ Hany). cbn [fst snd].
  set (pageArg := match page with Some p => p | None => JsNumber.ofZ 1 end).
  set (journals := JournalRegistry.list registry).
  pose proof (mapArray_length (fun j => fetch (journal_id j) pageArg) journals w) as Hlen.
  set (ps := fst (mapArray (fun j => fetch (journal_id j) pageArg) journals w)) in *.
  change (zip_with _ journals ps)
    with (zip_with (recordPromise toLowerCase scanner) journals ps).
  pose proof (calls_mirror_records toLowerCase scanner pageArg journals ps Hlen) as Hmirror.
  assert (Hsnd : map snd (combine journals
                            (zip_with (recordPromise toLowerCase scanner) journals ps))
                 = zip_with (recordPromise toLowerCase scanner) journals ps).
  { apply combine_snd. rewrite length_zip_with. lia. }
  split.
  - intros results Hok call Hin. apply list_elem_of_lookup in Hin as [i Hi].
    destruct (Forall2_lookup_l _ _ _ _ _ Hmirror Hi) as [call' [Hi' [Ht _]]].
    rewrite Ht. apply (all_fulfilled_instant _ results Hok). rewrite <- Hsnd.
    apply list_elem_of_In, in_map, list_elem_of_In. by eapply list_elem_of_lookup_2.
  - intros e Hrej. destruct (all_rejected _ _ Hrej) as [q [Hq [Hout [Ht _]]]].
    rewrite <- Hsnd in Hq.
    apply list_elem_of_In, in_map_iff in Hq as [call' [<- Hin']].
    apply list_elem_of_In, list_elem_of_lookup in Hin' as [i Hi'].
    destruct (Forall2_lookup_r _ _ _ _ _ Hmirror Hi') as [call [Hi [Ht' Hr]]].
    exists call. split; [by eapply list_elem_of_lookup_2|]. split.
    + apply reasonOf_Some. rewrite Hr. by apply reasonOf_Some.
    + by rewrite Ht'.
Qed.

End MoreOrchestratorFacts.

(** ** The further theorems at work on the stubs *)

Lemma downloadBundles_no_candidates_witness :
  downloadBundles stubError stubNumberToString [] (spy flakyDownload) None (0%nat, [])
  = (Async.mkPromise 0 (Async.Fulfilled []), (0%nat, [])).
Proof.
  apply (downloadBundles_no_candidates stubError stubNumberToString flakyDownload None 0%nat).
  by left.
Defined.

Lemma downloadBundles_cap_covers_all_witness :
  map fst (snd (snd (downloadBundles stubError stubNumberToString threeCandidates
                       (spy echoDownload) (Some (JsNumber.ofZ 5)) (0%nat, []))))
  = threeCandidates.
Proof.
  apply (downloadBundles_cap_covers_all stubError stubNumberToString
           threeCandidates echoDownload 5 0%nat); [lia | simpl; lia |].
  intros a n. eexists _, _. reflexivity.
Defined.

Lemma downloadBundles_larger_cap_extends_witness :
  snd (snd (downloadBundles stubError stubNumberToString threeCandidates
              (spy throwingDownload) (Some (JsNumber.ofZ 1)) (0%nat, [])))
  `prefix_of`
  snd (snd (downloadBundles stubError stubNumberToString threeCandidates
              (spy throwingDownload) (Some (JsNumber.ofZ 3)) (0%nat, []))).
Proof.
  apply (downloadBundles_larger_cap_extends stubError stubNumberToString
           threeCandidates throwingDownload 1 3 0%nat); lia.
Defined.

Lemma downloadBundles_throw_ends_the_loop_witness :
  downloadBundles stubError stubNumberToString threeCandidates (spy throwingDownload)
    (Some (JsNumber.ofZ 3)) (0%nat, [])
  = (Async.reject "Network failure",
     (2%nat,
      [(makeArticle "a1" "First",
        Async.mkPromise 100 (Async.Fulfilled (makeBundle (makeArticle "a1" "First"))));
       (makeArticle "bad" "Second", Async.reject "Network failure")])).
Proof.
  apply (downloadBundles_throw_ends_the_loop stubError stubNumberToString
           threeCandidates throwingDownload 3
           [makeArticle "a1" "First"] [makeArticle "a3" "Third"]
           (makeArticle "bad" "Second")
           [Async.mkPromise 100 (Async.Fulfilled (makeBundle (makeArticle "a1" "First")))]
           0%nat 1%nat 2%nat "Network failure"); [lia | reflexivity ..].
Defined.

Lemma identifyCandidates_skips_removed_witness :
  map (fun call => fst (fst call))
      (snd (snd (identifyCandidates stubError asciiLowerCase
                   (snd (JournalRegistry.remove "nature" scenarioRegistry))
                   scenarioScanner (spyFetch stubFetch) None (0%nat, []))))
  = ["science"].
Proof.
  apply (identifyCandidates_skips_removed stubError asciiLowerCase scenarioRegistry
           "nature" scenarioScanner stubFetch None 0%nat).
  split; apply (bool_decide_unpack _); by vm_compute.
Defined.

Lemma downloadBundles_settles_with_its_calls_witness :
  exists call,
    call ∈ snd (snd (downloadBundles stubError stubNumberToString threeCandidates
                       (spy flakyDownload) (Some (JsNumber.ofZ 3)) (0%nat, [])))
    /\ Async.outcome (snd call) = Async.Rejected "Network failure"
    /\ Async.settledAt (snd call)
       = Async.settledAt
           (fst (downloadBundles stubError stubNumberToString threeCandidates
                   (spy flakyDownload) (Some (JsNumber.ofZ 3)) (0%nat, []))).
Proof.
  apply (downloadBundles_settles_with_its_calls stubError stubNumberToString
           threeCandidates flakyDownload 3 0%nat).
  - lia.
  - reflexivity.
Defined.

Lemma identifyCandidates_settles_with_its_calls_witness :
  exists call,
    call ∈ snd (snd (identifyCandidates stubError asciiLowerCase
                       (JournalRegistry.register
                          {| journal_id := "cell"; displayName := "Cell"; endpoints := [] |}
                          scenarioRegistry)
                       scenarioScanner (spyFetch stubFetch) None (0%nat, [])))
    /\ Async.outcome (snd call) = Async.Rejected "Network timeout"
    /\ Async.settledAt (snd call)
       = Async.settledAt
           (fst (identifyCandidates stubError asciiLowerCase
                   (JournalRegistry.register
                      {| journal_id := "cell"; displayName := "Cell"; endpoints := [] |}
                      scenarioRegistry)
                   scenarioScanner (spyFetch stubFetch) None (0%nat, []))).
Proof.
  apply (identifyCandidates_settles_with_its_calls stubError asciiLowerCase
           (JournalRegistry.register
              {| journal_id := "cell"; displayName := "Cell"; endpoints := [] |}
              scenarioRegistry)
           scenarioScanner stubFetch None 0%nat).
  - simpl. discriminate.
  - reflexivity.
Defined.

Example downloadBundles_settle_instants :
  let ok := downloadBundles stubError stubNumberToString threeCandidates
              (spy echoDownload) None (0%nat, []) in
  let ko := downloadBundles stubError stubNumberToString threeCandidates
              (spy flakyDownload) None (0%nat, []) in
  Async.settledAt (fst ok) = 100%nat /\ Async.settledAt (fst ko) = 99%nat.
Proof. split; reflexivity. Qed.

Example downloadBundles_throwing_call :
  let run := downloadBundles stubError stubNumberToString threeCandidates
               (spy throwingDownload) None (0%nat, []) in
  Async.outcome (fst run) = Async.Rejected "Network failure"
  /\ Async.settledAt (fst run) = 0%nat
  /\ List.map (fun call => article_id (fst call)) (snd (snd run)) = ["a1"; "bad"].
Proof. vm_compute. repeat split; reflexivity. Qed.
